(** * AI chat client: session controller and content transformer

    A shallow embedding of the client half of the chat application:

    - [MarkdownRenderer.processContent] (components/MarkdownRenderer.tsx),
      the render-time rewriting of chart placeholders, and
    - the [Index] page (pages/Index.tsx), which owns the conversation list,
      the message list, the tool state and the single [AbortController]
      reference, and consumes the event stream of one turn.

    JavaScript strings are sequences of UTF-16 code units; React state is an
    explicit record threaded through the handlers; the asynchronous
    [for await] loop is a fold over the items the stream delivers.

    Conventions of the model:
    - state updates take effect in the order the code queues them, each one
      at once;
    - an activation of a handler runs up to its next [await] without
      interruption; what happens between two of its steps is whatever other
      handler is applied to the state in between;
    - the clock, [Math.random], [JSON.stringify] and the string conversion of
      values that are not strings are inputs ([Host]); every clock read of
      one uninterrupted run returns the same instant;
    - [lib/api.ts] is known through its use only: the stream is the list of
      what its iterator yields or throws, a history read is its outcome. *)

From Stdlib Require Import NArith ZArith Ascii String DecimalString DecimalZ.
From Stdlib Require Import DecimalPos Sorted.
From Equations Require Import Equations.
From stdpp Require Import base option list gmap.

Local Open Scope N_scope.
#[local] Set Warnings "-register-all".

(** ** JavaScript strings *)

(** A string value: its UTF-16 code units. *)
Abbreviation jsstring := (list N).

Definition bytes_of (s : string) : list N :=
  (fun a => N_of_ascii a) <$> list_ascii_of_string s.

(** Source literals are written as UTF-8 text; every literal of the two
    source files lies in the Basic Multilingual Plane, so one to three bytes
    give one code unit. *)
Fixpoint utf8_decode (bs : list N) : jsstring :=
  match bs with
  | [] => []
  | b0 :: r0 =>
    if b0 <? 0x80 then b0 :: utf8_decode r0
    else
      match r0 with
      | [] => [b0]
      | b1 :: r1 =>
        if b0 <? 0xE0 then
          N.lor (N.shiftl (N.land b0 0x1F) 6) (N.land b1 0x3F) :: utf8_decode r1
        else
          match r1 with
          | [] => [b0; b1]
          | b2 :: r2 =>
            N.lor (N.shiftl (N.land b0 0x0F) 12)
                  (N.lor (N.shiftl (N.land b1 0x3F) 6) (N.land b2 0x3F))
            :: utf8_decode r2
          end
      end
  end.

Definition u16 (s : string) : jsstring := utf8_decode (bytes_of s).

(** [a === b] on strings. *)
Definition streq (a b : jsstring) : bool := bool_decide (a = b).

(** [s.slice(from, to)] for literal, non-negative bounds. *)
Definition slice (from to : nat) (s : jsstring) : jsstring :=
  take (to - from) (drop from s).

Definition isHighSurrogate (c : N) : bool := (0xD800 <=? c) && (c <=? 0xDBFF).
Definition isLowSurrogate (c : N) : bool := (0xDC00 <=? c) && (c <=? 0xDFFF).

(** The string iterator behind [for (const char of chunk)]: one string per
    code point, a surrogate pair staying together. *)
Fixpoint codePoints (s : jsstring) : list jsstring :=
  match s with
  | [] => []
  | c :: s' =>
    match s' with
    | d :: s'' =>
      if isHighSurrogate c && isLowSurrogate d
      then [c; d] :: codePoints s''
      else [c] :: codePoints s'
    | [] => [[c]]
    end
  end.

(** [n.toString()] for an integral number. *)
Definition Number_toString (n : Z) : jsstring :=
  bytes_of (NilZero.string_of_int (Z.to_int n)).

(** ** components/MarkdownRenderer.tsx *)

Module MarkdownRenderer.

(** [{ id_to_iframe?: Record<string, string> }] *)
Record ToolState := { id_to_iframe : option (gmap jsstring jsstring) }.

Definition LBRACKET : N := 0x3010.  (* the opening lenticular bracket *)
Definition RBRACKET : N := 0x3011.  (* the closing lenticular bracket *)
Definition NEWLINE : N := 0x0A.

(** The literal part of the capture group, a dagger followed by "chart". *)
Definition DAGGER_CHART : jsstring := Eval vm_compute in u16 "†chart".

(** [\d] without the unicode flag: ASCII digits only. *)
Definition isDigit (c : N) : bool := (48 <=? c) && (c <=? 57).

(** Longest prefix whose units satisfy [p], and what follows: a greedy [p+]
    or [p*]. *)
Fixpoint span (p : N -> bool) (s : jsstring) : jsstring * jsstring :=
  match s with
  | c :: s' =>
    if p c then let '(a, b) := span p s' in (c :: a, b) else ([], s)
  | [] => ([], [])
  end.

Fixpoint stripPrefix (p s : jsstring) : option jsstring :=
  match p, s with
  | [], _ => Some s
  | x :: p', y :: s' => if x =? y then stripPrefix p' s' else None
  | _ :: _, [] => None
  end.

(** One attempt of the chart pattern (bracket, one or more digits, dagger,
    "chart", bracket) at the head of [s]: the matched text, capture group 1
    and the text after the match.  The greedy digit run never has to give a
    digit back, since the unit that must follow it is not a digit. *)
Definition matchChart (s : jsstring) : option (jsstring * jsstring * jsstring) :=
  match s with
  | c :: s1 =>
    if c =? LBRACKET then
      let '(ds, s2) := span isDigit s1 in
      match ds with
      | [] => None
      | _ :: _ =>
        match stripPrefix (DAGGER_CHART ++ [RBRACKET]) s2 with
        | Some rest =>
          Some (c :: ds ++ DAGGER_CHART ++ [RBRACKET], ds ++ DAGGER_CHART, rest)
        | None => None
        end
      end
    else None
  | [] => None
  end.

Definition inspect {A} (a : A) : {b | a = b} := exist _ a eq_refl.

(** [text.replace(chartPattern, callback)] with the global flag: scan from
    the left; where the pattern matches, emit the callback's result and go
    on after the match; elsewhere copy one code unit and go on. *)
Equations? replaceChart (callback : jsstring -> jsstring -> jsstring)
    (text : jsstring) : jsstring by wf (length text) lt :=
  replaceChart callback [] := [];
  replaceChart callback (c :: s') with inspect (matchChart (c :: s')) => {
    | exist _ (Some (m, key, rest)) Hm :=
        callback m key ++ replaceChart callback rest;
    | exist _ None _ := c :: replaceChart callback s' }.
Proof.
  - (* the text after a match is shorter than the text matched against *)
    assert (Hspan : forall s a b, span isDigit s = (a, b) ->
                                  (length b <= length s)%nat).
    { induction s as [|x s IH]; simpl; intros a b E; [by simplify_eq|].
      destruct (isDigit x); [|by simplify_eq].
      destruct (span isDigit s) as [a' b'] eqn:E'. simplify_eq.
      specialize (IH _ _ eq_refl). lia. }
    assert (Hstrip : forall p s r, stripPrefix p s = Some r ->
                                   (length r <= length s)%nat).
    { induction p as [|x p IH]; intros [|y s] r; simpl; intros E;
        simplify_eq; auto.
      destruct (x =? y); [|done]. apply IH in E. lia. }
    unfold matchChart in Hm. destruct (c =? LBRACKET); [|done].
    destruct (span isDigit s') as [ds s2] eqn:Hsp.
    destruct ds as [|d ds]; [done|].
    destruct (stripPrefix _ s2) as [r'|] eqn:Hst; [|done].
    simplify_eq. apply Hspan in Hsp. apply Hstrip in Hst. simpl. lia.
  - simpl; lia.
Qed.

(** The replacement callback of [processContent]. *)
Definition chartCallback (idToIframe : gmap jsstring jsstring)
    (m key : jsstring) : jsstring :=
  match idToIframe !! key with
  | Some iframeHtml =>
    match iframeHtml with
    | _ :: _ => [NEWLINE; NEWLINE] ++ iframeHtml ++ [NEWLINE; NEWLINE]
    | [] => m                      (* the empty string is falsy *)
    end
  | None => m                      (* undefined is falsy *)
  end.

Definition processContent (toolState : option ToolState) (text : jsstring)
    : jsstring :=
  match toolState ≫= id_to_iframe with
  | None => text
  | Some idToIframe => replaceChart (chartCallback idToIframe) text
  end.

End MarkdownRenderer.

(** ** JSON payloads

    The payload of a stream event is whatever [JSON.parse] produced, or
    [undefined] when the field is missing.  Numbers are kept as integers:
    the code only tests, copies or prints them. *)

Inductive json : Type :=
| JUndefined
| JNull
| JBool (b : bool)
| JNum (n : Z)
| JStr (s : jsstring)
| JArr (items : list json)
| JObj (props : list (jsstring * json)).

Definition typeof (v : json) : jsstring :=
  match v with
  | JUndefined => u16 "undefined"
  | JNull => u16 "object"
  | JBool _ => u16 "boolean"
  | JNum _ => u16 "number"
  | JStr _ => u16 "string"
  | JArr _ | JObj _ => u16 "object"
  end.

(** ToBoolean. *)
Definition truthy (v : json) : bool :=
  match v with
  | JUndefined | JNull => false
  | JBool b => b
  | JNum n => negb (n =? 0)%Z
  | JStr s => negb (streq s [])
  | JArr _ | JObj _ => true
  end.

(** The value is an Object in the language's sense (arrays included, [null]
    and the primitives not). *)
Definition isObject (v : json) : bool :=
  match v with
  | JArr _ | JObj _ => true
  | _ => false
  end.

Fixpoint assoc (key : jsstring) (props : list (jsstring * json)) : json :=
  match props with
  | [] => JUndefined
  | (k, v) :: props' => if streq k key then v else assoc key props'
  end.

(** [v.key] for a value that is neither [undefined] nor [null] and a key
    that is neither an index, nor ["length"], nor inherited: the own
    properties of a plain object, [undefined] on everything else.  A key
    occurs once in an object; the first entry is the one that counts. *)
Definition getProp (key : jsstring) (v : json) : json :=
  match v with
  | JObj props => assoc key props
  | _ => JUndefined
  end.

(** What the host supplies to one run of handler code: the clock, the
    base-36 rendering of [Math.random()], and the two built-ins whose
    results the client only stores, [JSON.stringify] and the string
    conversion of a value that is not a string. *)
Record Host := {
  now : Z;
  random36 : jsstring;
  JSON_stringify : json -> jsstring;
  String_of : json -> jsstring
}.

(** The conversion a template literal applies to an interpolated value. *)
Definition ToString (h : Host) (v : json) : jsstring :=
  match v with
  | JStr s => s
  | _ => String_of h v
  end.

(** ** types/chat.ts and the sidebar's [Conversation] *)

Module ReasoningStep.
Record t := mk {
  id : jsstring;
  stage : jsstring;
  message : jsstring;
  iteration : option Z;
  timestamp : Z
}.
End ReasoningStep.

Module Message.
Record t := mk {
  id : jsstring;
  text : jsstring;
  isUser : bool;
  timestamp : Z;
  reasoningSteps : option (list ReasoningStep.t);
  isThinking : option bool
}.

(** [{ ...msg, text }], [{ ...msg, isThinking }], [{ ...msg, reasoningSteps }] *)
Definition with_text (x : jsstring) (msg : t) : t :=
  mk (id msg) x (isUser msg) (timestamp msg) (reasoningSteps msg) (isThinking msg).
Definition with_isThinking (x : bool) (msg : t) : t :=
  mk (id msg) (text msg) (isUser msg) (timestamp msg) (reasoningSteps msg) (Some x).
Definition with_reasoningSteps (x : list ReasoningStep.t) (msg : t) : t :=
  mk (id msg) (text msg) (isUser msg) (timestamp msg) (Some x) (isThinking msg).
End Message.

Module Conversation.
Record t := mk {
  id : jsstring;
  title : jsstring;
  lastMessage : option jsstring;
  timestamp : Z
}.

(** [{ ...conv, lastMessage, timestamp }] *)
Definition with_preview (x : jsstring) (ts : Z) (conv : t) : t :=
  mk (id conv) (title conv) (Some x) ts.
End Conversation.

Module Toast.
Record t := mk {
  title : jsstring;
  description : json;
  variant : option jsstring
}.
End Toast.

(** ** lib/api.ts, as the page uses it *)

(** One event of the stream: [{ event, data }]. *)
Record StreamEvent := { event : jsstring; data : json }.

(** A value thrown out of an awaited call. *)
Inductive Thrown :=
| DOMException (name message : jsstring)
| OtherError (message : jsstring)   (* an Error that is no DOMException *)
| NonError.                         (* a thrown value that is no Error *)

(** What an aborted transport throws. *)
Definition AbortError : Thrown :=
  DOMException (u16 "AbortError") (u16 "The operation was aborted.").

(** [error instanceof DOMException && error.name === "AbortError"] *)
Definition isAbortError (error : Thrown) : bool :=
  match error with
  | DOMException name _ => streq name (u16 "AbortError")
  | _ => false
  end.

(** [error instanceof Error ? error.message : fallback] *)
Definition messageOr (fallback : jsstring) (error : Thrown) : jsstring :=
  match error with
  | DOMException _ message | OtherError message => message
  | NonError => fallback
  end.

(** What one step of the stream's iterator does: it yields an event, handled
    in the host state of that moment, or it throws. The end of the list is
    the iterator reporting that it is done. *)
Inductive StreamItem :=
| Yield (h : Host) (ev : StreamEvent)
| Throw (e : Thrown).

(** The argument of [streamLangGraphChat]; [userInfo] is always [null]. *)
Module Request.
Record t := mk { question : jsstring; chatId : jsstring }.
End Request.

(** The body of a history read, [{ messages: [{ role, content }, ...] }].
    [messages] is [None] when the field is missing or not an array,
    [content] is [None] when the field is missing or [null]. *)
Module History.
Record entry := mkEntry { role : jsstring; content : option jsstring }.
Record response := mkResponse { messages : option (list entry) }.
End History.

Inductive Fetched (A : Type) :=
| Resolved (value : A)
| Rejected (e : Thrown).
Arguments Resolved {A} value.
Arguments Rejected {A} e.

(** ** pages/Index.tsx: the state of the page *)

Inductive ConsoleEntry :=
| ConsoleDebug (label : jsstring) (value : json)
| ConsoleError (label : jsstring) (e : Thrown).

(** The React state of [Index], the [abortControllerRef], and the part of
    the host the handlers act on.  [AbortController]s are numbered in order
    of creation; [aborted] lists those whose [abort()] was called, [streams]
    the requests opened with their controller, [settled] the controllers
    whose [handleSendMessage] activation ran to its end. *)
Record World := mkWorld {
  conversations : list Conversation.t;
  currentConversationId : option jsstring;
  messages : list Message.t;
  isLoading : bool;
  isLoadingHistory : bool;
  toolState : json;
  abortControllerRef : option nat;
  controllers : nat;
  aborted : list nat;
  streams : list (nat * Request.t);
  settled : list nat;
  toasts : list Toast.t;
  console : list ConsoleEntry
}.

Definition setConversations (f : list Conversation.t -> list Conversation.t)
    (w : World) : World :=
  mkWorld (f (conversations w)) (currentConversationId w) (messages w)
    (isLoading w) (isLoadingHistory w) (toolState w) (abortControllerRef w)
    (controllers w) (aborted w) (streams w) (settled w) (toasts w) (console w).

Definition setCurrentConversationId (x : option jsstring) (w : World) : World :=
  mkWorld (conversations w) x (messages w)
    (isLoading w) (isLoadingHistory w) (toolState w) (abortControllerRef w)
    (controllers w) (aborted w) (streams w) (settled w) (toasts w) (console w).

Definition setMessages (f : list Message.t -> list Message.t)
    (w : World) : World :=
  mkWorld (conversations w) (currentConversationId w) (f (messages w))
    (isLoading w) (isLoadingHistory w) (toolState w) (abortControllerRef w)
    (controllers w) (aborted w) (streams w) (settled w) (toasts w) (console w).

Definition setIsLoading (x : bool) (w : World) : World :=
  mkWorld (conversations w) (currentConversationId w) (messages w)
    x (isLoadingHistory w) (toolState w) (abortControllerRef w)
    (controllers w) (aborted w) (streams w) (settled w) (toasts w) (console w).

Definition setIsLoadingHistory (x : bool) (w : World) : World :=
  mkWorld (conversations w) (currentConversationId w) (messages w)
    (isLoading w) x (toolState w) (abortControllerRef w)
    (controllers w) (aborted w) (streams w) (settled w) (toasts w) (console w).

Definition setToolState (x : json) (w : World) : World :=
  mkWorld (conversations w) (currentConversationId w) (messages w)
    (isLoading w) (isLoadingHistory w) x (abortControllerRef w)
    (controllers w) (aborted w) (streams w) (settled w) (toasts w) (console w).

(** [abortControllerRef.current = x] *)
Definition setAbortControllerRef (x : option nat) (w : World) : World :=
  mkWorld (conversations w) (currentConversationId w) (messages w)
    (isLoading w) (isLoadingHistory w) (toolState w) x
    (controllers w) (aborted w) (streams w) (settled w) (toasts w) (console w).

(** [controller.abort()] *)
Definition abort (c : nat) (w : World) : World :=
  mkWorld (conversations w) (currentConversationId w) (messages w)
    (isLoading w) (isLoadingHistory w) (toolState w) (abortControllerRef w)
    (controllers w) (aborted w ++ [c]) (streams w) (settled w) (toasts w)
    (console w).

(** [new AbortController()] *)
Definition newAbortController (w : World) : nat * World :=
  (controllers w,
   mkWorld (conversations w) (currentConversationId w) (messages w)
     (isLoading w) (isLoadingHistory w) (toolState w) (abortControllerRef w)
     (S (controllers w)) (aborted w) (streams w) (settled w) (toasts w)
     (console w)).

(** [streamLangGraphChat(request, controller.signal)] *)
Definition streamLangGraphChat (req : Request.t) (c : nat) (w : World) : World :=
  mkWorld (conversations w) (currentConversationId w) (messages w)
    (isLoading w) (isLoadingHistory w) (toolState w) (abortControllerRef w)
    (controllers w) (aborted w) (streams w ++ [(c, req)]) (settled w)
    (toasts w) (console w).

(** The activation of [handleSendMessage] that owns controller [c] is over. *)
Definition settle (c : nat) (w : World) : World :=
  mkWorld (conversations w) (currentConversationId w) (messages w)
    (isLoading w) (isLoadingHistory w) (toolState w) (abortControllerRef w)
    (controllers w) (aborted w) (streams w) (settled w ++ [c]) (toasts w)
    (console w).

Definition toast (x : Toast.t) (w : World) : World :=
  mkWorld (conversations w) (currentConversationId w) (messages w)
    (isLoading w) (isLoadingHistory w) (toolState w) (abortControllerRef w)
    (controllers w) (aborted w) (streams w) (settled w) (toasts w ++ [x])
    (console w).

Definition log (x : ConsoleEntry) (w : World) : World :=
  mkWorld (conversations w) (currentConversationId w) (messages w)
    (isLoading w) (isLoadingHistory w) (toolState w) (abortControllerRef w)
    (controllers w) (aborted w) (streams w) (settled w) (toasts w)
    (console w ++ [x]).

(** The streams that are in flight: opened, not aborted, and their handler
    still running. *)
Definition inFlight (w : World) : list nat :=
  filter (fun c => (c ∉ aborted w) ∧ (c ∉ settled w)) (fst <$> streams w).

(** The page as it is first rendered. *)
Definition initialWorld : World :=
  mkWorld [] None [] false false (JObj []) None 0 [] [] [] [] [].

(** ** pages/Index.tsx: the handlers *)

(** [prev.map((msg) => msg.id === id ? f(msg) : msg)] *)
Definition mapMessage (id : jsstring) (f : Message.t -> Message.t)
    (prev : list Message.t) : list Message.t :=
  (fun msg => if streq (Message.id msg) id then f msg else msg) <$> prev.

(** [prev.map((conv) => conv.id === id ? f(conv) : conv)] *)
Definition mapConversation (id : jsstring) (f : Conversation.t -> Conversation.t)
    (prev : list Conversation.t) : list Conversation.t :=
  (fun conv => if streq (Conversation.id conv) id then f conv else conv) <$> prev.

Definition cancelOngoingStream (w : World) : World :=
  let w :=
    match abortControllerRef w with
    | Some c => setAbortControllerRef None (abort c w)
    | None => w
    end in
  setIsLoading false w.

Definition loadedMessage (h : Host) (chatId : jsstring) (idx : nat)
    (msg : History.entry) : Message.t :=
  Message.mk
    (chatId ++ u16 "-" ++ Number_toString (Z.of_nat idx))
    (default [] (History.content msg))
    (streq (History.role msg) (u16 "user"))
    (now h)
    (Some [])
    (Some false).

(** [loadChatHistory], with the outcome of the awaited [getChatHistory]. *)
Definition loadChatHistory (h : Host) (chatId : jsstring)
    (fetched : Fetched History.response) (w : World) : World :=
  let w := setIsLoadingHistory true w in
  let w :=
    match fetched with
    | Resolved response =>
      match History.messages response with
      | Some msgs => setMessages (fun _ => imap (loadedMessage h chatId) msgs) w
      | None => setMessages (fun _ => []) w
      end
    | Rejected error =>
      let w := log (ConsoleError (u16 "Failed to load chat history:") error) w in
      let w := setMessages (fun _ => []) w in
      toast (Toast.mk (u16 "히스토리 로드 실패")
               (JStr (messageOr (u16 "대화 내용을 불러올 수 없습니다.") error))
               (Some (u16 "destructive"))) w
    end in
  setIsLoadingHistory false w.

Definition handleNewConversation (h : Host) (w : World) : World :=
  let w := cancelOngoingStream w in
  let newConversation :=
    Conversation.mk (Number_toString (now h)) (u16 "새 대화") None (now h) in
  let w := setConversations (fun prev => newConversation :: prev) w in
  let w := setCurrentConversationId (Some (Conversation.id newConversation)) w in
  setMessages (fun _ => []) w.

Definition handleSelectConversation (id : jsstring) (w : World) : World :=
  let w := cancelOngoingStream w in
  setCurrentConversationId (Some id) w.

(** Selecting a conversation, followed by the effect that depends on
    [currentConversationId]: it runs when the value changed, and loads the
    history when the new value is truthy. *)
Definition switchConversation (h : Host) (id : jsstring)
    (fetched : Fetched History.response) (w : World) : World :=
  let w' := handleSelectConversation id w in
  if bool_decide (currentConversationId w' = currentConversationId w)
  then w'
  else
    match id with
    | [] => w'
    | _ :: _ => loadChatHistory h id fetched w'
    end.

(** The constants one activation of [handleSendMessage] closes over. *)
Record Turn := mkTurn {
  chatId : jsstring;
  aiMessageId : jsstring;
  controller : nat
}.

(** [if (abortControllerRef.current) abortControllerRef.current.abort()] *)
Definition abortPrevious (w : World) : World :=
  match abortControllerRef w with
  | Some c => abort c w
  | None => w
  end.

(** [let chatId = currentConversationId; if (!chatId) { ... }]: without a
    current conversation (or with the empty id) one is created and selected. *)
Definition ensureConversation (h : Host) (text : jsstring) (w : World)
    : jsstring * World :=
  match currentConversationId w with
  | Some (c :: id') => (c :: id', w)
  | _ =>
    let chatId := Number_toString (now h) in
    let newConversation :=
      Conversation.mk chatId
        (slice 0 30 text ++ (if (30 <? length text)%nat then u16 "..." else []))
        (Some (slice 0 50 text))
        (now h) in
    let w := setConversations (fun prev => newConversation :: prev) w in
    (chatId, setCurrentConversationId (Some chatId) w)
  end.

(** The user entry, the preview of the conversation, and the placeholder of
    the answer. *)
Definition appendEntries (h : Host) (text chatId : jsstring) (w : World)
    : jsstring * World :=
  let userMessage :=
    Message.mk (Number_toString (now h)) text true (now h) None None in
  let w := setMessages (fun prev => prev ++ [userMessage]) w in
  let w := setIsLoading true w in
  let w :=
    setConversations
      (mapConversation chatId (Conversation.with_preview (slice 0 50 text) (now h)))
      w in
  let aiMessageId := Number_toString (now h + 1) in
  let aiMessage :=
    Message.mk aiMessageId [] false (now h) (Some []) (Some true) in
  (aiMessageId, setMessages (fun prev => prev ++ [aiMessage]) w).

(** The first statements of the [try] block. *)
Definition openStream (text chatId : jsstring) (w : World) : nat * World :=
  let '(controller, w) := newAbortController w in
  let w := setAbortControllerRef (Some controller) w in
  (controller, streamLangGraphChat (Request.mk text chatId) controller w).

(** [handleSendMessage(text)] up to its first [await]: the previous request
    is aborted, the conversation is created if there is none, the user entry
    and the placeholder are appended, and the stream is opened. *)
Definition handleSendMessage_begin (h : Host) (text : jsstring) (w : World)
    : Turn * World :=
  let w := abortPrevious w in
  let '(chatId, w) := ensureConversation h text w in
  let '(aiMessageId, w) := appendEntries h text chatId w in
  let '(controller, w) := openStream text chatId w in
  (mkTurn chatId aiMessageId controller, w).

(** The [reasoning] branch builds this step from the payload. *)
Definition reasoningStep (h : Host) (t : Turn) (data : json) : ReasoningStep.t :=
  let payload :=
    match data with
    | JUndefined | JNull => JObj []
    | _ => data
    end in
  let stage :=
    match getProp (u16 "stage") payload with
    | JStr s => s
    | _ => u16 "info"
    end in
  let message :=
    match payload with
    | JStr s => s
    | _ =>
      match getProp (u16 "message") payload with
      | JStr s => s
      | _ => JSON_stringify h payload
      end
    end in
  let iteration :=
    if isObject payload
    then match getProp (u16 "iteration") payload with
         | JNum n => Some n
         | _ => None
         end
    else None in
  ReasoningStep.mk
    (aiMessageId t ++ u16 "-reason-" ++ Number_toString (now h) ++ u16 "-"
       ++ slice 2 8 (random36 h))
    stage message iteration (now h).

Inductive LoopControl := Continue | Break.

(** The body of the loop over the characters of a token chunk: the
    character is appended to the local [accumulatedText], and the placeholder
    is given the accumulated text. *)
Definition appendChar (t : Turn) (st : jsstring * World) (char : jsstring)
    : jsstring * World :=
  let '(acc, w) := st in
  let acc := acc ++ char in
  (acc, setMessages (mapMessage (aiMessageId t) (Message.with_text acc)) w).

(** The body of the [for await] loop, for one event.  [acc] is the local
    [accumulatedText]. *)
Definition onEvent (h : Host) (t : Turn) (ev : StreamEvent)
    (acc : jsstring) (w : World) : LoopControl * jsstring * World :=
  if streq (event ev) (u16 "token") then
    let chunk := match data ev with JStr s => s | _ => [] end in
    let '(acc, w) := foldl (appendChar t) (acc, w) (codePoints chunk) in
    (Continue, acc, w)
  else if streq (event ev) (u16 "reasoning") then
    let step := reasoningStep h t (data ev) in
    (Continue, acc,
     setMessages
       (mapMessage (aiMessageId t)
          (fun msg =>
             Message.with_reasoningSteps
               (default [] (Message.reasoningSteps msg) ++ [step]) msg))
       w)
  else if streq (event ev) (u16 "tool_state") then
    if truthy (data ev) && streq (typeof (data ev)) (u16 "object")
    then (Continue, acc, setToolState (data ev) w)
    else (Continue, acc, w)
  else if streq (event ev) (u16 "metadata") then
    (Continue, acc, log (ConsoleDebug (u16 "LangGraph metadata") (data ev)) w)
  else if streq (event ev) (u16 "error") then
    let errorText :=
      if truthy (data ev) then data ev
      else JStr (u16 "알 수 없는 오류가 발생했습니다.") in
    let w :=
      setMessages
        (mapMessage (aiMessageId t)
           (Message.with_text (u16 "오류: " ++ ToString h errorText))) w in
    let w :=
      setMessages (mapMessage (aiMessageId t) (Message.with_isThinking false)) w in
    let w :=
      toast (Toast.mk (u16 "오류 발생") errorText (Some (u16 "destructive"))) w in
    (Break, acc, w)
  else if streq (event ev) (u16 "result") then
    let w :=
      setConversations
        (mapConversation (chatId t)
           (Conversation.with_preview (slice 0 80 acc) (now h))) w in
    let w :=
      setMessages (mapMessage (aiMessageId t) (Message.with_isThinking false)) w in
    (Break, acc, w)
  else (Continue, acc, w).

(** How the loop was left. *)
Inductive Completion :=
| Done               (* the iterator reported the end of the stream *)
| Broke              (* a [break] *)
| Threw (e : Thrown).

(** [for await (const event of stream) { ... }] *)
Fixpoint forAwait (t : Turn) (items : list StreamItem) (acc : jsstring)
    (w : World) : Completion * jsstring * World :=
  match items with
  | [] => (Done, acc, w)
  | Throw e :: _ => (Threw e, acc, w)
  | Yield h ev :: items' =>
    match onEvent h t ev acc w with
    | (Break, acc', w') => (Broke, acc', w')
    | (Continue, acc', w') => forAwait t items' acc' w'
    end
  end.

(** The [catch] and [finally] blocks. *)
Definition handleSendMessage_end (t : Turn)
    (r : Completion * jsstring * World) : World :=
  let '(completion, _, w) := r in
  let w :=
    match completion with
    | Threw error =>
      if isAbortError error then
        setMessages (mapMessage (aiMessageId t) (Message.with_isThinking false)) w
      else
      let w := log (ConsoleError (u16 "Chat stream error:") error) w in
      let errorMessage := messageOr (u16 "연결 오류가 발생했습니다.") error in
      let w :=
        setMessages
          (mapMessage (aiMessageId t)
             (Message.with_text (u16 "오류: " ++ errorMessage))) w in
      let w :=
        setMessages (mapMessage (aiMessageId t) (Message.with_isThinking false)) w in
      toast (Toast.mk (u16 "연결 오류") (JStr errorMessage)
               (Some (u16 "destructive"))) w
    | Done | Broke => w
    end in
  let w := setIsLoading false w in
  let w := setAbortControllerRef None w in
  let w :=
    setMessages (mapMessage (aiMessageId t) (Message.with_isThinking false)) w in
  settle (controller t) w.

(** The rest of [handleSendMessage] once the stream delivers [items],
    resumed with the local [acc] in the state [w]. *)
Definition handleSendMessage_resume (t : Turn) (items : list StreamItem)
    (acc : jsstring) (w : World) : World :=
  handleSendMessage_end t (forAwait t items acc w).

(** [handleSendMessage(text)] by itself: the statements of the function
    from the first to the last, with the items its stream delivers.  What
    the page does around them is not part of it: the history effect, which
    runs when the submit changes [currentConversationId] (on a page without
    a current conversation), and the handlers that run while the function
    awaits.  [Page.perform] composes the parts of the function with them. *)
Definition handleSendMessage (h : Host) (text : jsstring)
    (items : list StreamItem) (w : World) : World :=
  let '(t, w) := handleSendMessage_begin h text w in
  handleSendMessage_resume t items [] w.

(** [handleDeleteConversation(id)] up to its [await]. *)
Definition handleDeleteConversation_begin (w : World) : World :=
  cancelOngoingStream w.

(** [handleDeleteConversation(id)] once the awaited [deleteChatHistory] is
    over, resumed in the state [w] of that moment.  [current] is the
    [currentConversationId] the handler closed over: the one of the render
    in which the delete was requested. *)
Definition handleDeleteConversation_resume (id : jsstring)
    (current : option jsstring) (deleted : Fetched unit) (w : World) : World :=
  match deleted with
  | Resolved _ =>
    let w :=
      setConversations
        (fun prev => filter (fun conv => Conversation.id conv <> id) prev) w in
    let w :=
      if bool_decide (current = Some id)
      then setMessages (fun _ => []) (setCurrentConversationId None w)
      else w in
    toast (Toast.mk (u16 "대화 삭제됨") (JStr (u16 "대화가 삭제되었습니다.")) None) w
  | Rejected error =>
    toast (Toast.mk (u16 "삭제 실패")
             (JStr (messageOr (u16 "대화를 삭제할 수 없습니다.") error))
             (Some (u16 "destructive"))) w
  end.

(** [loadChatHistory(chatId)] once the awaited [getChatHistory] is over,
    resumed in the state of that moment; the part before the [await] is
    [setIsLoadingHistory(true)]. *)
Definition loadChatHistory_resume (h : Host) (chatId : jsstring)
    (fetched : Fetched History.response) (w : World) : World :=
  let w :=
    match fetched with
    | Resolved response =>
      match History.messages response with
      | Some msgs => setMessages (fun _ => imap (loadedMessage h chatId) msgs) w
      | None => setMessages (fun _ => []) w
      end
    | Rejected error =>
      let w := log (ConsoleError (u16 "Failed to load chat history:") error) w in
      let w := setMessages (fun _ => []) w in
      toast (Toast.mk (u16 "히스토리 로드 실패")
               (JStr (messageOr (u16 "대화 내용을 불러올 수 없습니다.") error))
               (Some (u16 "destructive"))) w
    end in
  setIsLoadingHistory false w.

(** The effect that runs once, when the page is mounted:
    [if (conversations.length === 0 && !currentConversationId)
       handleNewConversation()]. *)
Definition mountEffect (h : Host) (w : World) : World :=
  match conversations w, currentConversationId w with
  | [], None | [], Some [] => handleNewConversation h w
  | _, _ => w
  end.

(** The effect that depends on [currentConversationId]:
    [if (currentConversationId) loadChatHistory(currentConversationId)].  It
    runs after a render in which the value is not the one of the render
    before, [previous]. *)
Definition historyEffect (h : Host) (previous : option jsstring)
    (fetched : Fetched History.response) (w : World) : World :=
  if bool_decide (currentConversationId w = previous) then w
  else
    match currentConversationId w with
    | Some (c :: id') => loadChatHistory h (c :: id') fetched w
    | _ => w
    end.

(** ** pages/Index.tsx: the page at work

    A handler runs to its next [await] without interruption; what it awaits
    comes back later, and other handlers can run in between.  [Page.t] is
    the state of the page with the work that is pending: the activations of
    [handleSendMessage] whose stream is open, each with its local
    [accumulatedText], the deletes that await the server, each with the id
    and the [currentConversationId] it closed over, and the history reads
    that await the server. *)

Module Page.

Record t := mk {
  world : World;
  running : list (Turn * jsstring);
  deleting : list (jsstring * option jsstring);
  loading : list jsstring
}.

(** What can happen to the page.  The stream actions name the activation
    they concern by its place in [running], [Deleted] and [Loaded] the
    pending request by its place in [deleting] and [loading]. *)
Inductive Action :=
| Submit (h : Host) (text : jsstring)
| NewConversation (h : Host)
| Select (id : jsstring)
| Delete (id : jsstring)
| Deleted (k : nat) (outcome : Fetched unit)
| Loaded (k : nat) (h : Host) (fetched : Fetched History.response)
| Event (k : nat) (h : Host) (ev : StreamEvent)
| StreamEnd (k : nat)
| StreamThrow (k : nat) (e : Thrown).

(** An activation whose stream was aborted resumes, with the abort error,
    in the microtasks that follow the handler that aborted it, before the
    page handles anything else: its [catch] and [finally] blocks run right
    after that handler. *)
Definition abortHandled (p : t) : t :=
  foldl
    (fun p '(turn, acc) =>
       if bool_decide (controller turn ∈ aborted (world p))
       then mk (handleSendMessage_resume turn [Throw AbortError] acc (world p))
              (running p) (deleting p) (loading p)
       else mk (world p) (running p ++ [(turn, acc)]) (deleting p) (loading p))
    (mk (world p) [] (deleting p) (loading p))
    (running p).

(** The history effect after a render in which [currentConversationId] is
    not [previous]: [loadChatHistory] runs up to its [await]. *)
Definition effects (previous : option jsstring) (p : t) : t :=
  if bool_decide (currentConversationId (world p) = previous) then p
  else
    match currentConversationId (world p) with
    | Some (c :: id') =>
      mk (setIsLoadingHistory true (world p)) (running p) (deleting p)
        (loading p ++ [c :: id'])
    | _ => p
    end.

(** One action.  [ChatInput] is rendered with
    [disabled={isLoading || isLoadingHistory}], so a submit reaches the page
    only when both are false; an action that names no pending work does not
    happen. *)
Definition perform (a : Action) (p : t) : option t :=
  let w := world p in
  let previous := currentConversationId w in
  match a with
  | Submit h text =>
    if isLoading w || isLoadingHistory w then None
    else
      let '(turn, w0) := handleSendMessage_begin h text w in
      Some (effects previous
              (abortHandled
                 (mk w0 (running p ++ [(turn, [])]) (deleting p) (loading p))))
  | NewConversation h =>
    Some (effects previous
            (abortHandled
               (mk (handleNewConversation h w) (running p) (deleting p)
                  (loading p))))
  | Select id =>
    Some (effects previous
            (abortHandled
               (mk (handleSelectConversation id w) (running p) (deleting p)
                  (loading p))))
  | Delete id =>
    Some (abortHandled
            (mk (handleDeleteConversation_begin w) (running p)
               (deleting p ++ [(id, previous)]) (loading p)))
  | Deleted k outcome =>
    match deleting p !! k with
    | Some (id, current) =>
      Some (effects previous
              (mk (handleDeleteConversation_resume id current outcome w)
                 (running p) (delete k (deleting p)) (loading p)))
    | None => None
    end
  | Loaded k h fetched =>
    match loading p !! k with
    | Some chatId =>
      Some (mk (loadChatHistory_resume h chatId fetched w) (running p)
              (deleting p) (delete k (loading p)))
    | None => None
    end
  | Event k h ev =>
    match running p !! k with
    | Some (turn, acc) =>
      match onEvent h turn ev acc w with
      | (Continue, acc', w') =>
        Some (mk w' (<[k := (turn, acc')]> (running p)) (deleting p) (loading p))
      | (Break, acc', w') =>
        Some (mk (handleSendMessage_end turn (Broke, acc', w'))
                (delete k (running p)) (deleting p) (loading p))
      end
    | None => None
    end
  | StreamEnd k =>
    match running p !! k with
    | Some (turn, acc) =>
      Some (mk (handleSendMessage_end turn (Done, acc, w))
              (delete k (running p)) (deleting p) (loading p))
    | None => None
    end
  | StreamThrow k e =>
    match running p !! k with
    | Some (turn, acc) =>
      Some (mk (handleSendMessage_end turn (Threw e, acc, w))
              (delete k (running p)) (deleting p) (loading p))
    | None => None
    end
  end.

(** A sequence of actions, in order. *)
Fixpoint run (actions : list Action) (p : t) : option t :=
  match actions with
  | [] => Some p
  | a :: actions' =>
    match perform a p with
    | Some p' => run actions' p'
    | None => None
    end
  end.

(** The page after its first render: the mount effect has created a
    conversation, and the history effect has asked for its history. *)
Definition mounted (h : Host) : t :=
  effects None (mk (mountEffect h initialWorld) [] [] []).

End Page.

(** ** components/ChatMessage.tsx *)

Module ChatMessage.

(** Where [x] goes in a list that is already in display order: in front of
    the first step that is not earlier than it. *)
Fixpoint insertStep (x : ReasoningStep.t) (l : list ReasoningStep.t)
    : list ReasoningStep.t :=
  match l with
  | [] => [x]
  | y :: l' =>
    if (ReasoningStep.timestamp x <=? ReasoningStep.timestamp y)%Z
    then x :: l
    else y :: insertStep x l'
  end.

(** [[...reasoningSteps].sort((a, b) => a.timestamp.getTime()
    - b.timestamp.getTime())].  The sort of an array is stable and this
    comparator orders by one number, so the result is the one a stable
    insertion gives. *)
Fixpoint sortedSteps (reasoningSteps : list ReasoningStep.t)
    : list ReasoningStep.t :=
  match reasoningSteps with
  | [] => []
  | x :: l => insertStep x (sortedSteps l)
  end.

(** [reasoningSteps.length > 0] *)
Definition hasReasoning (reasoningSteps : list ReasoningStep.t) : bool :=
  (0 <? length reasoningSteps)%nat.

(** [!isUser && (isThinking || hasReasoning)], with the defaults of the
    props: no steps, not thinking. *)
Definition showToggle (msg : Message.t) : bool :=
  negb (Message.isUser msg)
  && (default false (Message.isThinking msg)
      || hasReasoning (default [] (Message.reasoningSteps msg))).

End ChatMessage.

(** ** components/MarkdownRenderer.tsx: the [code] component *)

Module CodeBlock.

(** [\w] without the unicode flag. *)
Definition isWord (c : N) : bool :=
  ((48 <=? c) && (c <=? 57)) || ((65 <=? c) && (c <=? 90))
  || ((97 <=? c) && (c <=? 122)) || (c =? 95).

Definition LANGUAGE_ : jsstring := Eval vm_compute in u16 "language-".

(** The capture group of [/language-(\w+)/.exec(className)]: the leftmost
    place where the literal is followed by a word character, and the longest
    run of word characters there. *)
Fixpoint languageOf (className : jsstring) : option jsstring :=
  match className with
  | [] => None
  | _ :: rest =>
    match MarkdownRenderer.stripPrefix LANGUAGE_ className with
    | Some after =>
      match MarkdownRenderer.span isWord after with
      | ([], _) => languageOf rest
      | (lang, _) => Some lang
      end
    | None => languageOf rest
    end
  end.

(** [s.replace(/\n$/, "")]: without the multiline flag the pattern matches
    a newline only when it is the last code unit. *)
Fixpoint stripFinalNewline (s : jsstring) : jsstring :=
  match s with
  | [] => []
  | c :: s' =>
    match s' with
    | [] => if c =? MarkdownRenderer.NEWLINE then [] else [c]
    | _ :: _ => c :: stripFinalNewline s'
    end
  end.

(** [!inline && match]: the block is given to the syntax highlighter, with
    this language, or else rendered as inline code.  [className || ""]
    stands for a missing class name. *)
Definition highlighted (inline : bool) (className : option jsstring)
    : option jsstring :=
  if inline then None else languageOf (default [] className).

End CodeBlock.

(** ** Vocabulary of the statements *)

Import MarkdownRenderer.

(** A key the chart pattern captures: one or more digits, then the dagger
    and "chart". *)
Definition isChartKey (key : jsstring) : Prop :=
  exists ds, ds <> [] /\ Forall (fun c => isDigit c = true) ds
             /\ key = ds ++ DAGGER_CHART.

(** The placeholder token that refers to [key]. *)
Definition placeholder (key : jsstring) : jsstring :=
  LBRACKET :: key ++ [RBRACKET].

(** No placeholder token starts anywhere in [s]. *)
Definition noPlaceholder (s : jsstring) : Prop :=
  forall i, matchChart (drop i s) = None.

(** What is rendered in the place of a substituted placeholder. *)
Definition embedded (fragment : jsstring) : jsstring :=
  [NEWLINE; NEWLINE] ++ fragment ++ [NEWLINE; NEWLINE].

(** The rendering fragment the tool state holds for [key], if any. *)
Definition fragmentOf (toolState : option ToolState) (key : jsstring)
    : option jsstring :=
  match toolState ≫= id_to_iframe with
  | Some idToIframe => idToIframe !! key
  | None => None
  end.

(** A code unit other than the opening bracket and the newline; every code
    unit of a token after its first is one. *)
Definition inToken (c : N) : Prop := c <> LBRACKET /\ c <> NEWLINE.

(** The text a stream item contributes to the answer: the payload of a
    [token] event when it is a string. *)
Definition tokenPayload (item : StreamItem) : jsstring :=
  match item with
  | Yield _ ev =>
    if streq (event ev) (u16 "token")
    then match data ev with JStr s => s | _ => [] end
    else []
  | Throw _ => []
  end.

(** The payloads of the token events among [items], joined in the order of
    arrival. *)
Definition tokenText (items : list StreamItem) : jsstring :=
  mjoin (tokenPayload <$> items).

(** An item that does not end the stream: an event that is neither [error]
    nor [result]. *)
Definition nonTerminal (item : StreamItem) : Prop :=
  match item with
  | Yield _ ev => event ev <> u16 "error" /\ event ev <> u16 "result"
  | Throw _ => False
  end.

(** The event names the loop has a branch for. *)
Definition knownEvents : list jsstring :=
  [u16 "token"; u16 "reasoning"; u16 "tool_state"; u16 "metadata";
   u16 "error"; u16 "result"].

(** [msg] is the placeholder of turn [t], showing [text]. *)
Definition isPlaceholder (t : Turn) (text : jsstring) (msg : Message.t) : Prop :=
  Message.id msg = aiMessageId t /\ Message.isUser msg = false
  /\ Message.text msg = text.

(** Host states for the examples. *)
Definition hostAt (time : Z) : Host :=
  {| now := time;
     random36 := u16 "0.8k3x1q9zt2";
     JSON_stringify := fun _ => u16 "{}";
     String_of := fun _ => u16 "[object Object]" |}.

Definition sampleHost : Host := hostAt 1700000000000.

(** The messages a history read returned: the window of the response, or
    nothing when the read failed or carried no array. *)
Definition returnedWindow (fetched : Fetched History.response)
    : list History.entry :=
  match fetched with
  | Resolved response => default [] (History.messages response)
  | Rejected _ => []
  end.

(** [w'] differs from [w] at most in the message list, the conversation
    list, the tool state, the notifications and the console. *)
Definition sameControl (w w' : World) : Prop :=
  currentConversationId w' = currentConversationId w
  /\ isLoading w' = isLoading w
  /\ isLoadingHistory w' = isLoadingHistory w
  /\ abortControllerRef w' = abortControllerRef w
  /\ controllers w' = controllers w
  /\ aborted w' = aborted w
  /\ streams w' = streams w
  /\ settled w' = settled w.

(** The reasoning steps the events among [items] give rise to, in the order
    of arrival. *)
Definition reasoningOf (t : Turn) (items : list StreamItem)
    : list ReasoningStep.t :=
  omap (fun item =>
          match item with
          | Yield h ev =>
            if streq (event ev) (u16 "reasoning")
            then Some (reasoningStep h t (data ev))
            else None
          | Throw _ => None
          end) items.

(** The item is a reasoning event. *)
Definition isReasoning (item : StreamItem) : bool :=
  match item with
  | Yield _ ev => streq (event ev) (u16 "reasoning")
  | Throw _ => false
  end.

(** The object payloads of the [tool_state] events among [items], in the
    order of arrival. *)
Definition toolStatesOf (items : list StreamItem) : list json :=
  omap (fun item =>
          match item with
          | Yield _ ev =>
            if streq (event ev) (u16 "tool_state") && isObject (data ev)
            then Some (data ev)
            else None
          | Throw _ => None
          end) items.

(** [msg] is the placeholder of turn [t], with the text, the reasoning
    steps and the thinking flag given. *)
Definition placeholderShows (t : Turn) (text : jsstring)
    (steps : list ReasoningStep.t) (thinking : option bool)
    (msg : Message.t) : Prop :=
  Message.id msg = aiMessageId t /\ Message.isUser msg = false
  /\ Message.text msg = text /\ Message.reasoningSteps msg = Some steps
  /\ Message.isThinking msg = thinking.

(** The current conversation, when there is one, is in the list. *)
Definition currentListed (w : World) : Prop :=
  forall id, currentConversationId w = Some id -> id <> [] ->
             exists conv, conv ∈ conversations w /\ Conversation.id conv = id.

(** The page has a current conversation: [currentConversationId] is
    truthy.  A submit then writes to that conversation and leaves
    [currentConversationId] as it is, so that the history effect does not
    run. *)
Definition hasCurrent (w : World) : Prop :=
  match currentConversationId w with
  | Some (_ :: _) => True
  | _ => False
  end.

(** The page after it was mounted and the history read of the conversation
    the mount effect created returned nothing. *)
Definition readyWorld : World :=
  historyEffect sampleHost None (Resolved (History.mkResponse (Some [])))
    (mountEffect sampleHost initialWorld).

(** The controllers the page has created are numbered below
    [controllers w]: the ones it aborted, the ones whose activation is over,
    the ones of the streams it opened, and the one it holds. *)
Definition fresh (w : World) : Prop :=
  Forall (fun c => (c < controllers w)%nat)
    (aborted w ++ settled w ++ (fst <$> streams w)
       ++ option_list (abortControllerRef w)).

(** The streams in flight are the streams of the activations that are
    running, and there is at most one: while it runs, the page holds its
    controller and is loading. *)
Definition oneStream (p : Page.t) : Prop :=
  fresh (Page.world p)
  /\ match Page.running p with
     | [] => inFlight (Page.world p) = []
     | [(t, _)] =>
       inFlight (Page.world p) = [controller t]
       /\ abortControllerRef (Page.world p) = Some (controller t)
       /\ isLoading (Page.world p) = true
     | _ => False
     end.

(** A conversation with this id is in the list. *)
Definition listed (id : jsstring) (w : World) : Prop :=
  exists conv, conv ∈ conversations w /\ Conversation.id conv = id.

(** [f] rewrites an entry without changing whose it is. *)
Definition keepsIdentity (f : Message.t -> Message.t) : Prop :=
  forall msg, Message.id (f msg) = Message.id msg
              /\ Message.isUser (f msg) = Message.isUser msg.

(** The item ends the loop over the stream: an [error] or [result] event, or
    a failure of the stream. *)
Definition endsStream (item : StreamItem) : bool :=
  match item with
  | Yield _ ev => streq (event ev) (u16 "error") || streq (event ev) (u16 "result")
  | Throw _ => true
  end.

(** The items the loop consumes before the one that ends it. *)
Fixpoint received (items : list StreamItem) : list StreamItem :=
  match items with
  | [] => []
  | item :: items' => if endsStream item then [] else item :: received items'
  end.

(** What happens to the page when the stream of the activation that runs
    delivers [items] and nothing else happens: an event for each item up to
    the one that ends the loop, or the end of the stream after the last. *)
Fixpoint turnActions (items : list StreamItem) : list Page.Action :=
  match items with
  | [] => [Page.StreamEnd 0]
  | Throw e :: _ => [Page.StreamThrow 0 e]
  | Yield h ev :: items' =>
    Page.Event 0 h ev
    :: (if endsStream (Yield h ev) then [] else turnActions items')
  end.

(** [a] is not later than [b]. *)
Definition earlier (a b : ReasoningStep.t) : Prop :=
  (ReasoningStep.timestamp a <= ReasoningStep.timestamp b)%Z.

(** * The model on concrete inputs *)

Example u16_literal : u16 "오류: " = [0xC624; 0xB958; 0x3A; 0x20].
Proof. reflexivity. Qed.

Example u16_placeholder : u16 "【7†chart】" = placeholder (u16 "7†chart").
Proof. reflexivity. Qed.

Example Number_toString_instant :
  Number_toString 1700000000001 = u16 "1700000000001".
Proof. reflexivity. Qed.

Example codePoints_surrogates :
  codePoints [0x41; 0xD83D; 0xDE00; 0x42; 0xDC00]
  = [[0x41]; [0xD83D; 0xDE00]; [0x42]; [0xDC00]].
Proof. reflexivity. Qed.

Example processContent_scan :
  processContent
    (Some {| id_to_iframe := Some {[ u16 "12†chart" := u16 "<i>" ]} |})
    (u16 "x【12†chart】y【3†chart】【12†chart 【【12†chart】")
  = u16 "x" ++ embedded (u16 "<i>") ++ u16 "y【3†chart】【12†chart 【"
      ++ embedded (u16 "<i>").
Proof. by vm_compute. Qed.

Example processContent_without_mapping :
  processContent (Some {| id_to_iframe := None |}) (u16 "【12†chart】")
  = u16 "【12†chart】".
Proof. reflexivity. Qed.

Example handleSendMessage_turn :
  let w :=
    handleSendMessage sampleHost (u16 "hi")
      [Yield sampleHost {| event := u16 "reasoning"; data := JStr (u16 "plan") |};
       Yield sampleHost {| event := u16 "token"; data := JStr (u16 "o") |};
       Yield sampleHost {| event := u16 "token"; data := JStr (u16 "k") |};
       Yield sampleHost {| event := u16 "result"; data := JUndefined |}]
      initialWorld in
  (Message.text <$> messages w) = [u16 "hi"; u16 "ok"]
  /\ (Message.isThinking <$> messages w) = [None; Some false]
  /\ (Conversation.lastMessage <$> conversations w) = [Some (u16 "ok")]
  /\ isLoading w = false /\ abortControllerRef w = None /\ inFlight w = [].
Proof. by vm_compute. Qed.

(** * Properties of the content transformer *)

Section Matching.

Lemma span_app p s a b : span p s = (a, b) -> s = a ++ b.
Proof.
  revert a b; induction s as [|c s IH]; simpl; intros a b H.
  - by simplify_eq.
  - destruct (p c); [|by simplify_eq].
    destruct (span p s) as [a' b']. simplify_eq. by rewrite (IH a' b).
Qed.

Lemma span_Forall p s a b : span p s = (a, b) -> Forall (fun c => p c = true) a.
Proof.
  revert a b; induction s as [|c s IH]; simpl; intros a b H.
  - simplify_eq. constructor.
  - destruct (p c) eqn:Hc; [|simplify_eq; constructor].
    destruct (span p s) as [a' b']. simplify_eq. constructor; eauto.
Qed.

Lemma span_stop p a x r :
  Forall (fun c => p c = true) a -> p x = false ->
  span p (a ++ x :: r) = (a, x :: r).
Proof.
  intros Ha Hx. induction Ha as [|c a Hc _ IH]; simpl.
  - by rewrite Hx.
  - by rewrite Hc, IH.
Qed.

Lemma stripPrefix_Some p s r : stripPrefix p s = Some r <-> s = p ++ r.
Proof.
  revert s; induction p as [|x p IH]; intros s; simpl.
  - split; congruence.
  - destruct s as [|y s]; [split; [done | intros [=]]|].
    destruct (N.eqb_spec x y) as [->|Hne].
    + rewrite IH. split; [by intros -> | by intros [=]].
    + split; [done | intros [=]; congruence].
Qed.

(** The pattern matches at the head of [s] exactly when [s] starts with a
    placeholder token. *)
Lemma matchChart_Some s m key rest :
  matchChart s = Some (m, key, rest) <->
  isChartKey key /\ m = placeholder key /\ s = m ++ rest.
Proof.
  split.
  - destruct s as [|c s1]; [done|]. unfold matchChart.
    destruct (N.eqb_spec c LBRACKET) as [->|]; [|done].
    destruct (span isDigit s1) as [ds s2] eqn:Hsp.
    destruct ds as [|d ds]; [done|].
    destruct (stripPrefix _ s2) as [r'|] eqn:Hst; [|done].
    intros [= <- <- <-]. apply stripPrefix_Some in Hst.
    pose proof (span_Forall _ _ _ _ Hsp) as Hds.
    apply span_app in Hsp. subst.
    split; [by exists (d :: ds)|].
    unfold placeholder. split; simpl; by rewrite <- ?app_assoc.
  - intros [(ds & Hne & Hds & ->) [-> ->]].
    unfold placeholder. rewrite <- app_comm_cons. unfold matchChart.
    rewrite N.eqb_refl.
    replace (((ds ++ DAGGER_CHART) ++ [RBRACKET]) ++ rest)
      with (ds ++ 8224 :: ([99; 104; 97; 114; 116] ++ RBRACKET :: rest))
      by (by rewrite <- !app_assoc).
    rewrite span_stop by done.
    destruct ds as [|d ds]; [done|].
    change (8224 :: [99; 104; 97; 114; 116] ++ RBRACKET :: rest)
      with ((DAGGER_CHART ++ [RBRACKET]) ++ rest).
    rewrite (proj2 (stripPrefix_Some _ _ rest) eq_refl).
    by rewrite <- !app_assoc.
Qed.

Lemma placeholder_tail key :
  isChartKey key -> Forall inToken (key ++ [RBRACKET]).
Proof.
  intros (ds & _ & Hds & ->). rewrite <- app_assoc.
  apply Forall_app; split.
  - eapply Forall_impl; [exact Hds|]. intros c Hc. unfold isDigit in Hc.
    apply andb_true_iff in Hc as [H1 H2].
    apply N.leb_le in H1, H2. unfold inToken, LBRACKET, NEWLINE. lia.
  - unfold DAGGER_CHART, app.
    repeat (constructor; [unfold inToken, LBRACKET, RBRACKET, NEWLINE; lia|]).
    constructor.
Qed.

Lemma matchChart_length s m key rest :
  matchChart s = Some (m, key, rest) -> (length rest < length s)%nat.
Proof.
  intros (_ & -> & ->)%matchChart_Some. unfold placeholder.
  rewrite length_app. simpl. lia.
Qed.

End Matching.

Section Replace.

Variable callback : jsstring -> jsstring -> jsstring.

Lemma replaceChart_match s m key rest :
  matchChart s = Some (m, key, rest) ->
  replaceChart callback s = callback m key ++ replaceChart callback rest.
Proof.
  intros Hm. destruct s as [|c s']; [done|].
  rewrite replaceChart_equation_2.
  destruct (inspect (matchChart (c :: s'))) as [[[[m' k'] r']|] E];
    simpl; congruence.
Qed.

Lemma replaceChart_skip c s :
  matchChart (c :: s) = None ->
  replaceChart callback (c :: s) = c :: replaceChart callback s.
Proof.
  intros Hm. rewrite replaceChart_equation_2.
  destruct (inspect (matchChart (c :: s))) as [[[[m' k'] r']|] E];
    simpl; congruence.
Qed.

Lemma matchChart_app a b m key rest :
  matchChart a = Some (m, key, rest) ->
  matchChart (a ++ b) = Some (m, key, rest ++ b).
Proof.
  rewrite !matchChart_Some. intros (Hk & -> & ->).
  by rewrite <- app_assoc.
Qed.

(** A match cannot run across a code unit that no token contains. *)
Lemma matchChart_app_inv a x y m key rest :
  a <> [] -> ~ inToken x ->
  matchChart (a ++ x :: y) = Some (m, key, rest) ->
  exists rest', matchChart a = Some (m, key, rest') /\ rest = rest' ++ x :: y.
Proof.
  intros Ha Hx Hm. apply matchChart_Some in Hm as (Hk & -> & Heq).
  assert (exists rest', a = placeholder key ++ rest' /\ rest = rest' ++ x :: y)
    as (rest' & -> & ->).
  { apply app_eq_inv in Heq as [(e & He & Hy)|(e & He & Hy)]; [by exists e|].
    destruct e as [|x' e].
    - exists []. rewrite app_nil_r in He. simpl in Hy. subst.
      by rewrite app_nil_r.
    - simpl in Hy. injection Hy as <- ->.
      destruct a as [|c a']; [done|]. unfold placeholder in He.
      injection He as _ He.
      pose proof (placeholder_tail key Hk) as Hall. rewrite He in Hall.
      apply Forall_app in Hall as [_ Hall]. by inversion Hall. }
  exists rest'. split; [|done]. by apply matchChart_Some.
Qed.

(** The scan of a text that is cut in front of such a code unit is the scan
    of its two parts. *)
Lemma replaceChart_app a x y :
  ~ inToken x ->
  replaceChart callback (a ++ x :: y) =
  replaceChart callback a ++ replaceChart callback (x :: y).
Proof.
  intros Hx. remember (length a) as n eqn:Hn. revert a Hn.
  induction n as [n IH] using lt_wf_ind. intros a ->.
  destruct a as [|c a']; [done|].
  destruct (matchChart (c :: a')) as [[[m key] rest]|] eqn:Hm.
  - rewrite (replaceChart_match _ _ _ _ Hm).
    rewrite (replaceChart_match _ _ _ _ (matchChart_app _ (x :: y) _ _ _ Hm)).
    rewrite <- app_assoc. f_equal.
    eapply IH; [|done]. by eapply matchChart_length.
  - assert (matchChart ((c :: a') ++ x :: y) = None) as Hm'.
    { destruct (matchChart ((c :: a') ++ x :: y)) as [[[m key] rest]|] eqn:E;
        [|done].
      apply matchChart_app_inv in E as (? & E & _); [congruence|done..]. }
    rewrite (replaceChart_skip _ _ Hm).
    simpl in Hm' |- *. rewrite (replaceChart_skip _ _ Hm').
    f_equal. eapply IH; [|done]. simpl; lia.
Qed.

Lemma noPlaceholder_tail c s : noPlaceholder (c :: s) -> noPlaceholder s.
Proof. intros H i. exact (H (S i)). Qed.

(** A text without placeholder tokens is copied. *)
Lemma replaceChart_noPlaceholder s :
  noPlaceholder s -> replaceChart callback s = s.
Proof.
  induction s as [|c s IH]; intros H; [done|].
  rewrite replaceChart_skip; [|exact (H 0%nat)].
  f_equal. eauto using noPlaceholder_tail.
Qed.

End Replace.

Section ChartCallback.

Variable idToIframe : gmap jsstring jsstring.

Abbreviation scan := (replaceChart (chartCallback idToIframe)).

(** What the callback returns starts with a code unit no token contains. *)
Lemma chartCallback_head key :
  exists x s, chartCallback idToIframe (placeholder key) key = x :: s
              /\ ~ inToken x.
Proof.
  unfold chartCallback, inToken.
  destruct (idToIframe !! key) as [[|c f]|]; eexists _, _;
    (split; [reflexivity|]); tauto.
Qed.

(** A run of token-internal code units at the head of the output was copied
    from the head of the input. *)
Lemma scan_inToken_prefix q : forall s r,
  Forall inToken q -> scan s = q ++ r ->
  exists r', s = q ++ r' /\ r = scan r'.
Proof.
  induction q as [|x q IH]; intros s r Hq Hs; [by exists s|].
  apply Forall_cons in Hq as [Hx Hq].
  destruct s as [|c s]; [done|].
  destruct (matchChart (c :: s)) as [[[m key] rest]|] eqn:Hm.
  - rewrite (replaceChart_match _ _ _ _ _ Hm) in Hs.
    apply matchChart_Some in Hm as (_ & -> & _).
    destruct (chartCallback_head key) as (x' & s' & Hcb & Hx').
    rewrite Hcb in Hs. simpl in Hs. by injection Hs as -> _.
  - rewrite (replaceChart_skip _ _ _ Hm) in Hs. simpl in Hs.
    injection Hs as -> Hs. destruct (IH _ _ Hq Hs) as (r' & -> & ->).
    by exists r'.
Qed.

(** The scan creates no token where the input had none. *)
Lemma matchChart_scan_None c s :
  matchChart (c :: s) = None -> matchChart (c :: scan s) = None.
Proof.
  intros Hm. destruct (matchChart (c :: scan s)) as [[[m key] rest]|] eqn:E;
    [|done].
  apply matchChart_Some in E as (Hk & -> & Heq).
  unfold placeholder in Heq. simpl in Heq. injection Heq as -> Heq.
  apply scan_inToken_prefix in Heq as (r' & -> & _);
    [|by apply placeholder_tail].
  assert (matchChart (LBRACKET :: (key ++ [RBRACKET]) ++ r')
          = Some (placeholder key, key, r')) as Hm'
    by (by apply matchChart_Some).
  congruence.
Qed.

Lemma scan_newline s : scan (NEWLINE :: s) = NEWLINE :: scan s.
Proof. by apply replaceChart_skip. Qed.

Lemma chartCallback_verbatim m key :
  idToIframe !! key = None \/ idToIframe !! key = Some [] ->
  chartCallback idToIframe m key = m.
Proof. unfold chartCallback. by intros [-> | ->]. Qed.

Lemma chartCallback_embedded m key fragment :
  idToIframe !! key = Some fragment -> fragment <> [] ->
  chartCallback idToIframe m key = embedded fragment.
Proof. unfold chartCallback. intros ->. by destruct fragment. Qed.

Lemma scan_placeholder key rest :
  isChartKey key ->
  scan (placeholder key ++ rest) =
  chartCallback idToIframe (placeholder key) key ++ scan rest.
Proof. intros Hk. apply replaceChart_match. by apply matchChart_Some. Qed.

Lemma scan_embedded fragment rest :
  noPlaceholder fragment ->
  scan (embedded fragment ++ rest) = embedded fragment ++ scan rest.
Proof.
  intros Hf. unfold embedded.
  change (([NEWLINE; NEWLINE] ++ fragment ++ [NEWLINE; NEWLINE]) ++ rest)
    with (NEWLINE :: NEWLINE :: (fragment ++ [NEWLINE; NEWLINE]) ++ rest).
  rewrite <- app_assoc.
  change ([NEWLINE; NEWLINE] ++ rest) with (NEWLINE :: NEWLINE :: rest).
  rewrite !scan_newline, replaceChart_app by (unfold inToken; tauto).
  rewrite replaceChart_noPlaceholder, !scan_newline by done.
  simpl. by rewrite <- app_assoc.
Qed.

Lemma scan_idempotent :
  (forall key fragment, idToIframe !! key = Some fragment ->
                        noPlaceholder fragment) ->
  forall text, scan (scan text) = scan text.
Proof.
  intros Hplain text. remember (length text) as n eqn:Hn. revert text Hn.
  induction n as [n IH] using lt_wf_ind. intros text ->.
  destruct text as [|c s]; [done|].
  destruct (matchChart (c :: s)) as [[[m key] rest]|] eqn:Hm.
  - rewrite (replaceChart_match _ _ _ _ _ Hm).
    pose proof (matchChart_length _ _ _ _ Hm) as Hlen.
    apply matchChart_Some in Hm as (Hk & -> & _).
    destruct (idToIframe !! key) as [[|f0 f]|] eqn:Hf.
    + rewrite chartCallback_verbatim by auto.
      rewrite scan_placeholder, chartCallback_verbatim by auto.
      by rewrite (IH _ Hlen rest eq_refl).
    + rewrite (chartCallback_embedded _ _ _ Hf) by done.
      rewrite scan_embedded by eauto.
      by rewrite (IH _ Hlen rest eq_refl).
    + rewrite chartCallback_verbatim by auto.
      rewrite scan_placeholder, chartCallback_verbatim by auto.
      by rewrite (IH _ Hlen rest eq_refl).
  - rewrite (replaceChart_skip _ _ _ Hm).
    rewrite (replaceChart_skip _ _ _ (matchChart_scan_None _ _ Hm)).
    f_equal. eapply IH; [|done]. simpl; lia.
Qed.

End ChartCallback.

(** C3 (as amended).  Wherever a placeholder token stands in the text, the
    transformer puts in its place the fragment the mapping holds for its key,
    between two blank lines, when that fragment is not empty; it leaves the
    token as it is when the key is absent or its fragment is empty; the text
    before and after the token is transformed on its own, and a text without
    tokens is returned unchanged.  The function is pure. *)
Theorem processContent_placeholder (toolState : option ToolState)
    (pre key post text : jsstring) :
  isChartKey key -> noPlaceholder text ->
  (forall fragment,
      fragmentOf toolState key = Some fragment -> fragment <> [] ->
      processContent toolState (pre ++ placeholder key ++ post) =
      processContent toolState pre ++ embedded fragment
        ++ processContent toolState post)
  /\ (fragmentOf toolState key = None \/ fragmentOf toolState key = Some [] ->
      processContent toolState (pre ++ placeholder key ++ post) =
      processContent toolState pre ++ placeholder key
        ++ processContent toolState post)
  /\ processContent toolState text = text.
Proof.
  intros Hk Htext. unfold fragmentOf, processContent.
  destruct (toolState ≫= id_to_iframe) as [idToIframe|]; cbv beta iota.
  - assert (replaceChart (chartCallback idToIframe)
              (pre ++ placeholder key ++ post) =
            replaceChart (chartCallback idToIframe) pre
              ++ chartCallback idToIframe (placeholder key) key
              ++ replaceChart (chartCallback idToIframe) post) as Heq.
    { unfold placeholder at 1. rewrite <- app_comm_cons.
      rewrite replaceChart_app by (unfold inToken; tauto).
      change (LBRACKET :: (key ++ [RBRACKET]) ++ post)
        with (placeholder key ++ post).
      by rewrite (scan_placeholder idToIframe key post Hk). }
    split; [|split].
    + intros fragment Hf Hne.
      by rewrite Heq, (chartCallback_embedded _ _ _ _ Hf Hne).
    + intros Hf. by rewrite Heq, chartCallback_verbatim.
    + by apply replaceChart_noPlaceholder.
  - split; [|split]; [intros ? [=] | done | done].
Qed.

Lemma processContent_placeholder_witness :
  let key := u16 "7†chart" in
  let toolState := Some {| id_to_iframe := Some {[ key := u16 "<b>" ]} |} in
  processContent toolState (u16 "a" ++ placeholder key ++ u16 "z") =
  processContent toolState (u16 "a") ++ embedded (u16 "<b>")
    ++ processContent toolState (u16 "z").
Proof.
  intros key toolState.
  refine (proj1 (processContent_placeholder toolState (u16 "a") key (u16 "z")
                   [] _ _) (u16 "<b>") _ _).
  - exists [55]. repeat split; [done | by repeat constructor].
  - intros i. by destruct i.
  - reflexivity.
  - done.
Defined.

(** C3, as stated, fails: a key that is present with the empty fragment is
    not replaced, and a fragment that is substituted does not come alone. *)
Lemma processContent_not_plain_substitution :
  let key := u16 "7†chart" in
  let empty := Some {| id_to_iframe := Some {[ key := [] ]} |} in
  let chart := Some {| id_to_iframe := Some {[ key := u16 "<b>" ]} |} in
  (fragmentOf empty key = Some []
   /\ processContent empty (placeholder key) = placeholder key
   /\ processContent empty (placeholder key) <> [])
  /\ (fragmentOf chart key = Some (u16 "<b>")
      /\ processContent chart (placeholder key) <> u16 "<b>").
Proof. by vm_compute. Qed.

(** C4.  When no fragment of the mapping contains a placeholder token, a
    second application of the transformer changes nothing; and within one
    application a substituted fragment is copied as it is, whatever it
    contains: the scan goes on after the token it replaced. *)
Theorem processContent_idempotent (toolState : option ToolState) :
  ((forall key fragment,
       fragmentOf toolState key = Some fragment -> noPlaceholder fragment) ->
   forall text,
     processContent toolState (processContent toolState text) =
     processContent toolState text)
  /\ (forall key fragment post,
         isChartKey key ->
         fragmentOf toolState key = Some fragment -> fragment <> [] ->
         processContent toolState (placeholder key ++ post) =
         embedded fragment ++ processContent toolState post).
Proof.
  unfold fragmentOf, processContent.
  destruct (toolState ≫= id_to_iframe) as [idToIframe|]; cbv beta iota.
  - split.
    + intros Hplain text. by apply scan_idempotent.
    + intros key fragment post Hk Hf Hne.
      by rewrite scan_placeholder, (chartCallback_embedded _ _ _ _ Hf Hne).
  - split; [done | intros ??? _ [=]].
Qed.

Lemma processContent_idempotent_witness :
  let key := u16 "7†chart" in
  let toolState := Some {| id_to_iframe := Some {[ key := u16 "<b>" ]} |} in
  let text := u16 "a" ++ placeholder key ++ u16 "z" in
  processContent toolState (processContent toolState text) =
  processContent toolState text.
Proof.
  intros key toolState text.
  apply (proj1 (processContent_idempotent toolState)).
  intros k fragment Hf. unfold fragmentOf in Hf. simpl in Hf.
  apply lookup_singleton_Some in Hf as [_ <-].
  intros i. by do 4 (destruct i as [|i]; [reflexivity|]).
Defined.

(** * Properties of the session controller *)

Section Lists.

Lemma streq_true a b : streq a b = true <-> a = b.
Proof. unfold streq. by rewrite bool_decide_eq_true. Qed.

Lemma streq_false a b : streq a b = false <-> a <> b.
Proof. unfold streq. by rewrite bool_decide_eq_false. Qed.

Lemma streq_refl a : streq a a = true.
Proof. by apply streq_true. Qed.

Lemma mapMessage_length id f l : length (mapMessage id f l) = length l.
Proof. apply length_fmap. Qed.

(** [mapMessage] leaves the entries with another id where and as they are. *)
Lemma mapMessage_other id f l i msg :
  l !! i = Some msg -> Message.id msg <> id ->
  mapMessage id f l !! i = Some msg.
Proof.
  intros Hl Hid. unfold mapMessage. rewrite list_lookup_fmap, Hl. simpl.
  by rewrite (proj2 (streq_false _ _) Hid).
Qed.

Lemma mapMessage_last id f l msg :
  last l = Some msg -> Message.id msg = id ->
  last (mapMessage id f l) = Some (f msg).
Proof.
  intros Hl Hid. unfold mapMessage. rewrite fmap_last, Hl. simpl.
  by rewrite (proj2 (streq_true _ _) Hid).
Qed.

Lemma mapMessage_compose id f g l :
  (forall msg, Message.id (g msg) = Message.id msg) ->
  mapMessage id f (mapMessage id g l) = mapMessage id (f ∘ g) l.
Proof.
  intros Hg. unfold mapMessage. rewrite <- list_fmap_compose.
  apply list_fmap_ext. intros _ msg _. simpl.
  destruct (streq (Message.id msg) id) eqn:E; [by rewrite Hg, E | by rewrite E].
Qed.

Lemma mapConversation_length id f l : length (mapConversation id f l) = length l.
Proof. apply length_fmap. Qed.

Lemma mapConversation_other id f l i conv :
  l !! i = Some conv -> Conversation.id conv <> id ->
  mapConversation id f l !! i = Some conv.
Proof.
  intros Hl Hid. unfold mapConversation. rewrite list_lookup_fmap, Hl. simpl.
  by rewrite (proj2 (streq_false _ _) Hid).
Qed.

(** The iterator splits a string into pieces that join back to it. *)
Lemma codePoints_join s : mjoin (codePoints s) = s.
Proof.
  remember (length s) as n eqn:Hn. revert s Hn.
  induction n as [n IH] using lt_wf_ind. intros s ->.
  destruct s as [|c [|d s]]; [done..|].
  change (codePoints (c :: d :: s))
    with (if isHighSurrogate c && isLowSurrogate d
          then [c; d] :: codePoints s else [c] :: codePoints (d :: s)).
  destruct (isHighSurrogate c && isLowSurrogate d).
  - cbn [mjoin list_join app]. f_equal. f_equal.
    apply (IH (length s)); [simpl; lia | done].
  - cbn [mjoin list_join app]. f_equal.
    apply (IH (length (d :: s))); [simpl; lia | done].
Qed.

End Lists.

Section Events.

Variable t : Turn.

Lemma setMessages_ext f g w :
  f (messages w) = g (messages w) -> setMessages f w = setMessages g w.
Proof. unfold setMessages. by intros ->. Qed.

(** After the loop over the characters of a chunk, the local text has grown
    by the chunk and, if the chunk was not empty, the placeholder shows it. *)
Lemma appendChar_loop chars : forall acc w,
  foldl (appendChar t) (acc, w) chars =
  (acc ++ mjoin chars,
   match chars with
   | [] => w
   | _ :: _ =>
     setMessages
       (mapMessage (aiMessageId t) (Message.with_text (acc ++ mjoin chars))) w
   end).
Proof.
  induction chars as [|c cs IH]; intros acc w.
  - simpl. by rewrite app_nil_r.
  - cbn [foldl]. unfold appendChar at 2. rewrite IH.
    cbn [mjoin list_join]. rewrite <- app_assoc.
    f_equal. destruct cs as [|c' cs]; [by rewrite app_nil_r|].
    change (setMessages ?f (setMessages ?g w))
      with (setMessages (f ∘ g) w).
    apply setMessages_ext. simpl. by rewrite mapMessage_compose.
Qed.

Lemma onEvent_token h payload acc w :
  onEvent h t {| event := u16 "token"; data := payload |} acc w =
  let chunk := match payload with JStr s => s | _ => [] end in
  (Continue, acc ++ chunk,
   match chunk with
   | [] => w
   | _ :: _ =>
     setMessages (mapMessage (aiMessageId t) (Message.with_text (acc ++ chunk))) w
   end).
Proof.
  unfold onEvent. cbn [event data]. rewrite streq_refl.
  rewrite appendChar_loop, codePoints_join.
  destruct payload as [| | | |[|c s]| |]; try done.
  destruct s as [|d s]; [done|]. cbn [codePoints].
  by destruct (isHighSurrogate c && isLowSurrogate d).
Qed.

Lemma mapMessage_id l : mapMessage (aiMessageId t) (fun msg => msg) l = l.
Proof.
  unfold mapMessage. rewrite <- (list_fmap_id l) at 2.
  apply list_fmap_ext. intros _ msg _. by destruct (streq _ _).
Qed.

Lemma mapConversation_id l : mapConversation (chatId t) (fun conv => conv) l = l.
Proof.
  unfold mapConversation. rewrite <- (list_fmap_id l) at 2.
  apply list_fmap_ext. intros _ conv _. by destruct (streq _ _).
Qed.

Lemma sameControl_trans w1 w2 w3 :
  sameControl w1 w2 -> sameControl w2 w3 -> sameControl w1 w3.
Proof.
  unfold sameControl. intros (?&?&?&?&?&?&?&?) (?&?&?&?&?&?&?&?).
  repeat split; etrans; eassumption.
Qed.

Ltac event_cases ev :=
  unfold onEvent;
  destruct (streq (event ev) (u16 "token")) eqn:Etoken;
  [| destruct (streq (event ev) (u16 "reasoning")) eqn:Ereasoning;
   [| destruct (streq (event ev) (u16 "tool_state")) eqn:Etool;
    [| destruct (streq (event ev) (u16 "metadata")) eqn:Emeta;
     [| destruct (streq (event ev) (u16 "error")) eqn:Eerror;
      [| destruct (streq (event ev) (u16 "result")) eqn:Eresult ]]]]].

(** Whatever the event, the loop body rewrites the message list only through
    a map over the entries that carry the id of the turn's placeholder, and
    the conversation list only through a map over the entries that carry the
    turn's chat id. *)
Lemma onEvent_shape h ev acc w :
  exists f g,
    (forall msg, Message.id (f msg) = Message.id msg
                 /\ Message.isUser (f msg) = Message.isUser msg)
    /\ messages (onEvent h t ev acc w).2 =
       mapMessage (aiMessageId t) f (messages w)
    /\ conversations (onEvent h t ev acc w).2 =
       mapConversation (chatId t) g (conversations w)
    /\ (event ev <> u16 "result" ->
        conversations (onEvent h t ev acc w).2 = conversations w)
    /\ (event ev <> u16 "tool_state" ->
        toolState (onEvent h t ev acc w).2 = toolState w)
    /\ sameControl w (onEvent h t ev acc w).2.
Proof.
  event_cases ev.
  - rewrite appendChar_loop. cbn [snd].
    destruct (codePoints _) as [|c cs].
    + exists (fun msg => msg), (fun conv => conv).
      by rewrite mapMessage_id, mapConversation_id.
    + eexists _, (fun conv => conv). rewrite mapConversation_id.
      split; [|by repeat split]. done.
  - eexists _, (fun conv => conv). cbn [snd]. rewrite mapConversation_id.
    split; [|by repeat split]. done.
  - exists (fun msg => msg), (fun conv => conv).
    rewrite mapMessage_id, mapConversation_id.
    apply streq_true in Etool.
    by destruct (truthy _ && _).
  - exists (fun msg => msg), (fun conv => conv).
    by rewrite mapMessage_id, mapConversation_id.
  - eexists _, (fun conv => conv). cbn [snd]. rewrite mapConversation_id.
    split; [|split; [|by repeat split]].
    2:{ cbn [messages toast setMessages]. by rewrite mapMessage_compose. }
    done.
  - eexists _, _. cbn [snd].
    split; [|split; [reflexivity|split; [reflexivity|split; [|by repeat split]]]].
    + done.
    + intros Hne. by apply streq_true in Eresult.
  - exists (fun msg => msg), (fun conv => conv).
    by rewrite mapMessage_id, mapConversation_id.
Qed.



End Events.

Section Turns.

(** Decide the comparisons between the event names of the source. *)
Ltac event_names :=
  cbn [event data];
  repeat match goal with
         | |- context [streq (u16 ?a) (u16 ?b)] =>
           let v := eval vm_compute in (streq (u16 a) (u16 b)) in
           change (streq (u16 a) (u16 b)) with v
         end;
  cbv iota.

(** The guard of the [tool_state] branch holds exactly of the objects. *)
Lemma isObject_spec v :
  truthy v && streq (typeof v) (u16 "object") = isObject v.
Proof.
  destruct v; cbn [truthy typeof isObject]; event_names;
    by rewrite ?andb_false_r.
Qed.

Lemma onEvent_result h t payload acc w :
  onEvent h t {| event := u16 "result"; data := payload |} acc w =
  (Break, acc,
   setMessages (mapMessage (aiMessageId t) (Message.with_isThinking false))
     (setConversations
        (mapConversation (chatId t)
           (Conversation.with_preview (slice 0 80 acc) (now h))) w)).
Proof. unfold onEvent. by event_names. Qed.

Lemma onEvent_error h t payload acc w :
  onEvent h t {| event := u16 "error"; data := payload |} acc w =
  let errorText :=
    if truthy payload then payload
    else JStr (u16 "알 수 없는 오류가 발생했습니다.") in
  (Break, acc,
   toast (Toast.mk (u16 "오류 발생") errorText (Some (u16 "destructive")))
     (setMessages (mapMessage (aiMessageId t) (Message.with_isThinking false))
        (setMessages
           (mapMessage (aiMessageId t)
              (Message.with_text (u16 "오류: " ++ ToString h errorText))) w))).
Proof. unfold onEvent. by event_names. Qed.

Lemma onEvent_tool_state h t payload acc w :
  onEvent h t {| event := u16 "tool_state"; data := payload |} acc w =
  (Continue, acc, if isObject payload then setToolState payload w else w).
Proof.
  unfold onEvent. event_names. rewrite isObject_spec.
  by destruct (isObject payload).
Qed.

(** What the synchronous part of a submit leaves behind. *)
Lemma handleSendMessage_begin_spec h text w :
  let '(t, w0) := handleSendMessage_begin h text w in
  exists user ph,
    messages w0 = messages w ++ [user; ph]
    /\ Message.text user = text /\ Message.isUser user = true
    /\ isPlaceholder t [] ph
    /\ Message.isThinking ph = Some true
    /\ Message.reasoningSteps ph = Some []
    /\ abortControllerRef w0 = Some (controller t)
    /\ controller t = controllers w
    /\ aborted w0 = aborted w ++ option_list (abortControllerRef w)
    /\ streams w0 = streams w ++ [(controller t, Request.mk text (chatId t))]
    /\ settled w0 = settled w
    /\ toasts w0 = toasts w
    /\ isLoading w0 = true.
Proof.
  unfold handleSendMessage_begin, abortPrevious, ensureConversation,
    appendEntries, openStream, newAbortController.
  destruct (abortControllerRef w) as [c|] eqn:Href;
    destruct (currentConversationId w) as [[|c0 id0]|] eqn:Hcur;
    cbn -[u16 Number_toString slice]; rewrite ?Href, ?Hcur;
    cbn -[u16 Number_toString slice];
    eexists _, _; rewrite <- ?app_assoc, ?app_nil_r;
    repeat split; reflexivity.
Qed.

(** With a current conversation, the submit writes to it and selects
    nothing. *)
Lemma handleSendMessage_begin_current h text w :
  hasCurrent w ->
  let '(t, w0) := handleSendMessage_begin h text w in
  currentConversationId w0 = currentConversationId w
  /\ currentConversationId w = Some (chatId t).
Proof.
  unfold hasCurrent, handleSendMessage_begin, abortPrevious,
    ensureConversation, appendEntries, openStream, newAbortController.
  destruct (currentConversationId w) as [[|c0 id0]|] eqn:Hcur; try done.
  intros _. destruct (abortControllerRef w) as [c|] eqn:Href;
    cbn -[u16 Number_toString slice]; by rewrite ?Href, ?Hcur.
Qed.

Lemma last_two {A} (l : list A) x y : last (l ++ [x; y]) = Some y.
Proof.
  change (l ++ [x; y]) with (l ++ [x] ++ [y]).
  rewrite app_assoc. apply last_snoc.
Qed.


End Turns.

(** ** The claims about the stream of one turn *)





(** C9.  Whatever the event, the loop body keeps the length of the message
    list, every entry whose id is not the placeholder's stays where and as
    it was, and an entry that changes keeps its id and its author; the
    conversation list changes only on [result], and then only in the entries
    that carry the turn's chat id; the tool state changes only on
    [tool_state]. *)
Theorem onEvent_frame (h : Host) (t : Turn) (ev : StreamEvent)
    (acc : jsstring) (w : World) :
  let w' := (onEvent h t ev acc w).2 in
  length (messages w') = length (messages w)
  /\ (forall i msg,
         messages w !! i = Some msg -> Message.id msg <> aiMessageId t ->
         messages w' !! i = Some msg)
  /\ (forall i msg,
         messages w !! i = Some msg ->
         exists msg', messages w' !! i = Some msg'
                      /\ Message.id msg' = Message.id msg
                      /\ Message.isUser msg' = Message.isUser msg)
  /\ length (conversations w') = length (conversations w)
  /\ (forall i conv,
         conversations w !! i = Some conv ->
         Conversation.id conv <> chatId t ->
         conversations w' !! i = Some conv)
  /\ (event ev <> u16 "result" -> conversations w' = conversations w)
  /\ (event ev <> u16 "tool_state" -> toolState w' = toolState w)
  /\ sameControl w w'.
Proof.
  cbv zeta.
  destruct (onEvent_shape t h ev acc w)
    as (f & g & Hf & -> & -> & Hc & Hts & Hs).
  split; [apply mapMessage_length|].
  split; [intros; by apply mapMessage_other|].
  split.
  { intros i msg Hi. unfold mapMessage. rewrite list_lookup_fmap, Hi. simpl.
    eexists; split; [done|]. destruct (streq _ _); [apply Hf | done]. }
  split; [apply mapConversation_length|].
  split; [intros; by apply mapConversation_other|].
  done.
Qed.

Lemma onEvent_frame_witness :
  let userEntry := Message.mk (u16 "1") (u16 "hi") true 0 None None in
  let placeholderEntry := Message.mk (u16 "2") [] false 0 (Some []) (Some true) in
  let w := setMessages (fun _ => [userEntry; placeholderEntry]) initialWorld in
  let t := mkTurn (u16 "c") (u16 "2") 0 in
  let ev := {| event := u16 "token"; data := JStr (u16 "Hel") |} in
  messages (onEvent sampleHost t ev [] w).2 !! 0%nat = Some userEntry.
Proof.
  intros userEntry placeholderEntry w t ev.
  refine (proj1 (proj2 (onEvent_frame sampleHost t ev [] w)) 0%nat userEntry _ _).
  - reflexivity.
  - by vm_compute.
Defined.

(** C10.  An event with a name the loop has no branch for, a [token] event
    whose payload is not a string, and a [tool_state] event whose payload is
    not an object (arrays are objects, [null] is not) leave the state and
    the accumulated text as they are, and the loop goes on. *)
Theorem onEvent_total (h : Host) (t : Turn) (acc : jsstring) (w : World) :
  (forall name payload,
      name ∉ knownEvents ->
      onEvent h t {| event := name; data := payload |} acc w = (Continue, acc, w))
  /\ (forall payload,
         (forall s, payload <> JStr s) ->
         onEvent h t {| event := u16 "token"; data := payload |} acc w
         = (Continue, acc, w))
  /\ (forall payload,
         isObject payload = false ->
         onEvent h t {| event := u16 "tool_state"; data := payload |} acc w
         = (Continue, acc, w)).
Proof.
  split; [|split].
  - intros name payload Hname. unfold onEvent. cbn [event data].
    repeat match goal with
           | |- context [streq name ?b] =>
             let E := fresh in
             destruct (streq name b) eqn:E;
               [apply streq_true in E; subst name; exfalso; apply Hname;
                unfold knownEvents; set_solver|]
           end.
    done.
  - intros payload Hs. rewrite onEvent_token. cbv zeta.
    destruct payload as [| | | |s| |]; try by rewrite app_nil_r.
    by destruct (Hs s).
  - intros payload Hobj. by rewrite onEvent_tool_state, Hobj.
Qed.

Lemma onEvent_total_witness :
  onEvent sampleHost (mkTurn [] [] 0)
    {| event := u16 "ping"; data := JNum 1 |} (u16 "abc") initialWorld
  = (Continue, u16 "abc", initialWorld)
  /\ onEvent sampleHost (mkTurn [] [] 0)
       {| event := u16 "token"; data := JNum 1 |} (u16 "abc") initialWorld
     = (Continue, u16 "abc", initialWorld)
  /\ onEvent sampleHost (mkTurn [] [] 0)
       {| event := u16 "tool_state"; data := JStr (u16 "x") |} (u16 "abc")
       initialWorld
     = (Continue, u16 "abc", initialWorld).
Proof.
  pose proof (onEvent_total sampleHost (mkTurn [] [] 0) (u16 "abc") initialWorld)
    as (H1 & H2 & H3).
  split; [|split].
  - apply H1. apply (bool_decide_unpack _). by vm_compute.
  - apply H2. done.
  - apply H3. reflexivity.
Defined.

(** C1 (as amended).  A [tool_state] event whose payload is an object makes
    the payload the tool state: afterwards every key reads as it reads in
    the payload, so a key the payload does not have reads [undefined]
    whatever it held before.  Nothing else changes. *)
Theorem onEvent_tool_state_replaces (h : Host) (t : Turn) (payload : json)
    (acc : jsstring) (w : World) :
  isObject payload = true ->
  let '(control, acc', w') :=
    onEvent h t {| event := u16 "tool_state"; data := payload |} acc w in
  control = Continue /\ acc' = acc
  /\ toolState w' = payload
  /\ (forall key, getProp key (toolState w') = getProp key payload)
  /\ w' = setToolState payload w.
Proof. intros Hobj. rewrite onEvent_tool_state, Hobj. by repeat split. Qed.

Lemma onEvent_tool_state_replaces_witness :
  let payload := JObj [(u16 "id_to_iframe", JObj [(u16 "2†chart", JStr (u16 "<b>"))])] in
  toolState (onEvent sampleHost (mkTurn [] [] 0)
               {| event := u16 "tool_state"; data := payload |} [] initialWorld).2
  = payload.
Proof.
  intros payload.
  pose proof (onEvent_tool_state_replaces sampleHost (mkTurn [] [] 0) payload []
                initialWorld eq_refl) as H.
  destruct (onEvent _ _ _ _ _) as [[control acc'] w'].
  by destruct H as (_ & _ & H & _).
Defined.

(** C1, as stated, fails: the payload is not merged into the tool state.  A
    key of the previous state that the payload lacks is gone after the
    event, at the top level and inside [id_to_iframe]. *)
Lemma onEvent_tool_state_not_merged :
  let previous :=
    JObj [(u16 "id_to_iframe", JObj [(u16 "1†chart", JStr (u16 "<a>"))]);
          (u16 "note", JStr (u16 "n"))] in
  let payload :=
    JObj [(u16 "id_to_iframe", JObj [(u16 "2†chart", JStr (u16 "<b>"))])] in
  let w := setToolState previous initialWorld in
  let w' :=
    (onEvent sampleHost (mkTurn [] [] 0)
       {| event := u16 "tool_state"; data := payload |} [] w).2 in
  (getProp (u16 "note") payload = JUndefined
   /\ getProp (u16 "note") (toolState w) = JStr (u16 "n")
   /\ getProp (u16 "note") (toolState w') = JUndefined)
  /\ (getProp (u16 "1†chart") (getProp (u16 "id_to_iframe") payload) = JUndefined
      /\ getProp (u16 "1†chart") (getProp (u16 "id_to_iframe") (toolState w))
         = JStr (u16 "<a>")
      /\ getProp (u16 "1†chart") (getProp (u16 "id_to_iframe") (toolState w'))
         = JUndefined).
Proof. by vm_compute. Qed.

(** ** The claims about the handlers of the page *)

Lemma loadChatHistory_messages h chatId fetched w :
  messages (loadChatHistory h chatId fetched w)
  = imap (loadedMessage h chatId) (returnedWindow fetched)
  /\ toolState (loadChatHistory h chatId fetched w) = toolState w
  /\ currentConversationId (loadChatHistory h chatId fetched w)
     = currentConversationId w.
Proof.
  unfold loadChatHistory, returnedWindow.
  destruct fetched as [[[msgs|]]|e]; by repeat split.
Qed.

(** [loadChatHistory] is its part before the [await] followed by its part
    after it. *)
Lemma loadChatHistory_segments h chatId fetched w :
  loadChatHistory h chatId fetched w
  = loadChatHistory_resume h chatId fetched (setIsLoadingHistory true w).
Proof. reflexivity. Qed.

(** C5 (as amended).  Selecting another conversation replaces the whole
    message list by the window the history read returned, entry by entry and
    in order, each entry with an empty list of reasoning steps and not
    thinking (by nothing, when the read failed); the steps of the previous
    conversation are gone with its entries.  The tool state is left as it
    was. *)
Theorem switchConversation_loads_history (h : Host) (id : jsstring)
    (fetched : Fetched History.response) (w : World) :
  id <> [] -> currentConversationId w <> Some id ->
  let w' := switchConversation h id fetched w in
  let window := returnedWindow fetched in
  w' = loadChatHistory h id fetched (handleSelectConversation id w)
  /\ currentConversationId w' = Some id
  /\ length (messages w') = length window
  /\ (forall i entry,
         window !! i = Some entry ->
         exists msg,
           messages w' !! i = Some msg
           /\ Message.text msg = default [] (History.content entry)
           /\ Message.isUser msg = streq (History.role entry) (u16 "user")
           /\ Message.reasoningSteps msg = Some []
           /\ Message.isThinking msg = Some false)
  /\ toolState w' = toolState w.
Proof.
  intros Hid Hcur. cbv zeta.
  assert (switchConversation h id fetched w
          = loadChatHistory h id fetched (handleSelectConversation id w)) as ->.
  { unfold switchConversation.
    assert (currentConversationId (handleSelectConversation id w) = Some id)
      as -> by done.
    rewrite bool_decide_eq_false_2 by congruence. by destruct id. }
  destruct (loadChatHistory_messages h id fetched (handleSelectConversation id w))
    as (Hm & Hts & Hc).
  rewrite Hm, Hts, Hc. split; [done|]. split; [done|].
  split; [by rewrite length_imap|]. split.
  - intros i entry Hi. rewrite list_lookup_imap, Hi. by eexists.
  - unfold handleSelectConversation, cancelOngoingStream.
    by destruct (abortControllerRef w).
Qed.

Lemma switchConversation_loads_history_witness :
  let fetched :=
    Resolved (History.mkResponse
                (Some [History.mkEntry (u16 "user") (Some (u16 "hi"));
                       History.mkEntry (u16 "assistant") (Some (u16 "hello"))])) in
  let w' := switchConversation sampleHost (u16 "B") fetched initialWorld in
  length (messages w') = 2%nat /\ toolState w' = JObj [].
Proof.
  intros fetched w'.
  destruct (switchConversation_loads_history sampleHost (u16 "B") fetched
              initialWorld) as (_ & _ & Hlen & _ & Hts); [by vm_compute..|].
  split; [exact Hlen | exact Hts].
Defined.

(** C5, as stated, fails: the tool state a turn of one conversation stored
    is still there after another conversation was selected and its history
    loaded. *)
Lemma switchConversation_keeps_toolState :
  let charts :=
    JObj [(u16 "id_to_iframe", JObj [(u16 "1†chart", JStr (u16 "<a>"))])] in
  let turn :=
    [Yield sampleHost {| event := u16 "tool_state"; data := charts |};
     Yield sampleHost {| event := u16 "result"; data := JUndefined |}] in
  let w :=
    handleSendMessage sampleHost (u16 "draw") turn
      (handleNewConversation (hostAt 1) initialWorld) in
  let w' :=
    switchConversation sampleHost (u16 "B")
      (Resolved (History.mkResponse (Some []))) w in
  currentConversationId w = Some (u16 "1")
  /\ currentConversationId w' = Some (u16 "B")
  /\ messages w' = []
  /\ toolState w' = charts
  /\ toolState w' <> toolState initialWorld.
Proof. by vm_compute. Qed.




(** * Further properties of the content transformer *)

(** The pattern matches at the head of a text exactly when the text starts
    with a placeholder token, and then yields the token, its key and the text
    after it. *)
Theorem matchChart_recognizes (s : jsstring) :
  match matchChart s with
  | Some (m, key, rest) => isChartKey key /\ m = placeholder key /\ s = m ++ rest
  | None => forall key rest, isChartKey key -> s <> placeholder key ++ rest
  end.
Proof.
  destruct (matchChart s) as [[[m key] rest]|] eqn:Hm.
  - by apply matchChart_Some.
  - intros key rest Hk ->.
    assert (matchChart (placeholder key ++ rest)
            = Some (placeholder key, key, rest)) by (by apply matchChart_Some).
    congruence.
Qed.

(** A token never runs across a line break: the transformer works line by
    line. *)
Theorem processContent_lines (toolState : option ToolState) (a b : jsstring) :
  processContent toolState (a ++ NEWLINE :: b) =
  processContent toolState a ++ NEWLINE :: processContent toolState b.
Proof.
  unfold processContent.
  destruct (toolState ≫= id_to_iframe) as [idToIframe|]; [|done].
  rewrite replaceChart_app by (unfold inToken; tauto).
  by rewrite scan_newline.
Qed.

Lemma scan_verbatim idToIframe :
  (forall key, isChartKey key ->
               idToIframe !! key = None \/ idToIframe !! key = Some []) ->
  forall text, replaceChart (chartCallback idToIframe) text = text.
Proof.
  intros Hnone text. remember (length text) as n eqn:Hn. revert text Hn.
  induction n as [n IH] using lt_wf_ind. intros text ->.
  destruct text as [|c s]; [done|].
  destruct (matchChart (c :: s)) as [[[m key] rest]|] eqn:Hm.
  - rewrite (replaceChart_match _ _ _ _ _ Hm).
    pose proof (matchChart_length _ _ _ _ Hm) as Hlen.
    apply matchChart_Some in Hm as (Hk & -> & ->).
    rewrite chartCallback_verbatim by auto.
    by rewrite (IH _ Hlen rest eq_refl).
  - rewrite (replaceChart_skip _ _ _ Hm). f_equal.
    apply (IH (length s)); [simpl; lia | done].
Qed.

(** When the mapping holds no fragment, or only empty ones, for the keys a
    token can carry, the transformer returns every text unchanged. *)
Theorem processContent_no_fragment (toolState : option ToolState)
    (text : jsstring) :
  (forall key, isChartKey key ->
     fragmentOf toolState key = None \/ fragmentOf toolState key = Some []) ->
  processContent toolState text = text.
Proof.
  unfold fragmentOf, processContent.
  destruct (toolState ≫= id_to_iframe) as [idToIframe|]; [|done].
  intros Hnone. by apply scan_verbatim.
Qed.

Lemma processContent_no_fragment_witness :
  processContent (Some {| id_to_iframe := Some {[ u16 "note" := u16 "<b>" ]} |})
    (u16 "a【7†chart】") = u16 "a【7†chart】".
Proof.
  apply processContent_no_fragment.
  intros key (ds & Hne & Hds & ->). left. unfold fragmentOf. simpl.
  apply lookup_singleton_None. intros E.
  destruct ds as [|d ds]; [done|].
  apply Forall_cons in Hds as [Hd _]. injection E as <- _. done.
Defined.

Lemma scan_ext m1 m2 :
  (forall key, isChartKey key -> m1 !! key = m2 !! key) ->
  forall text, replaceChart (chartCallback m1) text
               = replaceChart (chartCallback m2) text.
Proof.
  intros Heq text. remember (length text) as n eqn:Hn. revert text Hn.
  induction n as [n IH] using lt_wf_ind. intros text ->.
  destruct text as [|c s]; [done|].
  destruct (matchChart (c :: s)) as [[[m key] rest]|] eqn:Hm.
  - rewrite !(replaceChart_match _ _ _ _ _ Hm).
    pose proof (matchChart_length _ _ _ _ Hm) as Hlen.
    apply matchChart_Some in Hm as (Hk & -> & _).
    rewrite (IH _ Hlen rest eq_refl). f_equal.
    unfold chartCallback. by rewrite (Heq key Hk).
  - rewrite !(replaceChart_skip _ _ _ Hm). f_equal.
    apply (IH (length s)); [simpl; lia | done].
Qed.

(** The transformer reads the mapping only at the keys a token can carry:
    two tool states that hold the same fragments for those keys transform
    every text alike. *)
Theorem processContent_ext (ts1 ts2 : option ToolState) (text : jsstring) :
  (forall key, isChartKey key -> fragmentOf ts1 key = fragmentOf ts2 key) ->
  processContent ts1 text = processContent ts2 text.
Proof.
  intros Heq.
  destruct (ts1 ≫= id_to_iframe) as [m1|] eqn:E1;
    destruct (ts2 ≫= id_to_iframe) as [m2|] eqn:E2.
  - unfold processContent. rewrite E1, E2. apply scan_ext.
    intros key Hk. specialize (Heq key Hk). unfold fragmentOf in Heq.
    by rewrite E1, E2 in Heq.
  - unfold processContent. rewrite E1, E2. apply scan_verbatim.
    intros key Hk. left. specialize (Heq key Hk). unfold fragmentOf in Heq.
    by rewrite E1, E2 in Heq.
  - unfold processContent. rewrite E1, E2. symmetry. apply scan_verbatim.
    intros key Hk. left. specialize (Heq key Hk). unfold fragmentOf in Heq.
    by rewrite E1, E2 in Heq.
  - unfold processContent. by rewrite E1, E2.
Qed.

Lemma processContent_ext_witness :
  let key := u16 "7†chart" in
  let text := u16 "a" ++ placeholder key in
  processContent (Some {| id_to_iframe := Some {[ key := u16 "<b>" ]} |}) text
  = processContent
      (Some {| id_to_iframe :=
                 Some (<[ u16 "note" := u16 "n" ]> {[ key := u16 "<b>" ]}) |})
      text.
Proof.
  intros key text. apply processContent_ext.
  intros k (ds & Hne & Hds & ->). unfold fragmentOf. simpl.
  rewrite lookup_insert_ne; [done|].
  intros E. destruct ds as [|d ds]; [done|].
  apply Forall_cons in Hds as [Hd _]. injection E as <- _. done.
Defined.

(** * The [code] component *)

Section CodeBlocks.

Import CodeBlock.

(** The replacement removes exactly one final newline and nothing else: a
    text that ends in a newline loses that one, even when another precedes
    it, and any other text is unchanged. *)
Theorem stripFinalNewline_spec (s : jsstring) :
  stripFinalNewline (s ++ [NEWLINE]) = s
  /\ (last s <> Some NEWLINE -> stripFinalNewline s = s).
Proof.
  split.
  - induction s as [|c s IH]; [done|].
    destruct s as [|d s]; [done|].
    change (stripFinalNewline ((c :: d :: s) ++ [NEWLINE]))
      with (c :: stripFinalNewline ((d :: s) ++ [NEWLINE])).
    by rewrite IH.
  - induction s as [|c s IH]; [done|]. intros Hlast.
    destruct s as [|d s].
    + simpl. destruct (N.eqb_spec c NEWLINE) as [->|]; done.
    + change (stripFinalNewline (c :: d :: s))
        with (c :: stripFinalNewline (d :: s)).
      f_equal. apply IH. by rewrite last_cons_cons in Hlast.
Qed.

Lemma stripFinalNewline_spec_witness :
  stripFinalNewline (u16 "x = 1") = u16 "x = 1".
Proof.
  apply (proj2 (stripFinalNewline_spec (u16 "x = 1"))). by vm_compute.
Defined.

Lemma span_isWord_app lang post :
  Forall (fun c => isWord c = true) lang ->
  match post with [] => True | x :: _ => isWord x = false end ->
  span isWord (lang ++ post) = (lang, post).
Proof.
  intros Hlang Hpost. destruct post as [|x post].
  - rewrite app_nil_r. clear Hpost.
    induction Hlang as [|c lang Hc _ IH]; [done|]. simpl. by rewrite Hc, IH.
  - by apply span_stop.
Qed.

(** For a class name that starts with the prefix followed by a language
    name made of word characters, the language is that name, whatever
    follows it after a character that is no word character; the block is
    highlighted in that language unless it is inline. *)
Theorem languageOf_class (lang post : jsstring) :
  lang <> [] -> Forall (fun c => isWord c = true) lang ->
  match post with [] => True | x :: _ => isWord x = false end ->
  languageOf (LANGUAGE_ ++ lang ++ post) = Some lang
  /\ highlighted false (Some (LANGUAGE_ ++ lang ++ post)) = Some lang
  /\ highlighted true (Some (LANGUAGE_ ++ lang ++ post)) = None.
Proof.
  intros Hne Hlang Hpost.
  assert (languageOf (LANGUAGE_ ++ lang ++ post) = Some lang) as H.
  { change (LANGUAGE_ ++ lang ++ post)
      with (108 :: [97; 110; 103; 117; 97; 103; 101; 45] ++ lang ++ post).
    cbn [languageOf].
    change (108 :: [97; 110; 103; 117; 97; 103; 101; 45] ++ lang ++ post)
      with (LANGUAGE_ ++ lang ++ post).
    rewrite (proj2 (stripPrefix_Some LANGUAGE_ _ (lang ++ post)) eq_refl).
    rewrite span_isWord_app by done. by destruct lang. }
  by rewrite <- H.
Qed.

Lemma languageOf_class_witness :
  languageOf (u16 "language-python hljs") = Some (u16 "python").
Proof.
  apply (languageOf_class (u16 "python") (u16 " hljs")).
  - done.
  - by repeat constructor.
  - reflexivity.
Defined.

(** Whatever the class name, a language that is found is a non-empty run of
    word characters that follows the prefix somewhere in the class name. *)
Theorem languageOf_sound (className lang : jsstring) :
  languageOf className = Some lang ->
  lang <> [] /\ Forall (fun c => isWord c = true) lang
  /\ (exists pre post, className = pre ++ LANGUAGE_ ++ lang ++ post).
Proof.
  intros H.
  induction className as [|c rest IH]; [done|].
  cbn [languageOf] in H.
  destruct (stripPrefix LANGUAGE_ (c :: rest)) as [after|] eqn:Hp.
  - destruct (span isWord after) as [[|l0 ls] post] eqn:Hs.
    + destruct (IH H) as (? & ? & pre & post' & ->).
      split; [done|]. split; [done|]. by exists (c :: pre), post'.
    + injection H as <-. split; [done|].
      split; [by eapply span_Forall|].
      apply stripPrefix_Some in Hp. apply span_app in Hs.
      exists [], post. by rewrite Hp, Hs.
  - destruct (IH H) as (? & ? & pre & post' & ->).
    split; [done|]. split; [done|]. by exists (c :: pre), post'.
Qed.

Lemma languageOf_sound_witness :
  exists pre post,
    u16 "hljs language-js" = pre ++ LANGUAGE_ ++ u16 "js" ++ post.
Proof.
  by destruct (languageOf_sound (u16 "hljs language-js") (u16 "js") eq_refl)
    as (_ & _ & H).
Defined.

End CodeBlocks.

(** * The reasoning steps of a message, as they are displayed *)

Section Steps.

Import ChatMessage.

Lemma insertStep_Permutation x l : insertStep x l ≡ₚ x :: l.
Proof.
  induction l as [|y l IH]; [done|]. simpl.
  destruct (_ <=? _)%Z; [done|]. rewrite IH. apply Permutation_swap.
Qed.

Lemma insertStep_Sorted x l :
  Sorted earlier l -> Sorted earlier (insertStep x l).
Proof.
  induction 1 as [|y l Hl IH Hy]; [by repeat constructor|].
  simpl. destruct (Z.leb_spec (ReasoningStep.timestamp x)
                     (ReasoningStep.timestamp y)) as [Hle|Hgt].
  - by repeat constructor.
  - constructor; [done|].
    destruct l as [|z l]; simpl.
    + constructor. unfold earlier. lia.
    + destruct (Z.leb_spec (ReasoningStep.timestamp x)
                  (ReasoningStep.timestamp z)).
      * constructor. unfold earlier. lia.
      * constructor. by inversion Hy.
Qed.

(** The steps are displayed in the order of their timestamps, and they are
    the steps of the message, each as often as it was received: the count
    shown beside the toggle is the number of steps. *)
Theorem sortedSteps_sorted (reasoningSteps : list ReasoningStep.t) :
  Sorted earlier (sortedSteps reasoningSteps)
  /\ sortedSteps reasoningSteps ≡ₚ reasoningSteps
  /\ length (sortedSteps reasoningSteps) = length reasoningSteps.
Proof.
  assert (sortedSteps reasoningSteps ≡ₚ reasoningSteps) as Hp.
  { induction reasoningSteps as [|x l IH]; [done|]. simpl.
    by rewrite insertStep_Permutation, IH. }
  split; [|split; [done | by rewrite Hp]].
  induction reasoningSteps as [|x l IH]; [constructor|]. simpl.
  apply insertStep_Sorted, IH.
  clear -l. induction l as [|y l IH]; [done|]. simpl.
  by rewrite insertStep_Permutation, IH.
Qed.

Lemma insertStep_filter time x s :
  filter (fun step => ReasoningStep.timestamp step = time) (insertStep x s)
  = filter (fun step => ReasoningStep.timestamp step = time) (x :: s).
Proof.
  induction s as [|y s IH]; [done|]. cbn [insertStep].
  destruct (Z.leb_spec (ReasoningStep.timestamp x) (ReasoningStep.timestamp y))
    as [Hle|Hgt]; [done|].
  rewrite (filter_cons _ y), IH, !filter_cons.
  repeat case_decide; try done; lia.
Qed.

(** The sort is stable: steps that carry the same timestamp are displayed in
    the order in which they were received. *)
Theorem sortedSteps_stable (reasoningSteps : list ReasoningStep.t) (time : Z) :
  filter (fun step => ReasoningStep.timestamp step = time)
    (sortedSteps reasoningSteps)
  = filter (fun step => ReasoningStep.timestamp step = time) reasoningSteps.
Proof.
  induction reasoningSteps as [|x l IH]; [done|]. cbn [sortedSteps].
  by rewrite insertStep_filter, !filter_cons, IH.
Qed.

(** Steps whose timestamps do not decrease in the order of arrival are
    displayed in the order of arrival. *)
Theorem sortedSteps_arrival_order (reasoningSteps : list ReasoningStep.t) :
  Sorted earlier reasoningSteps -> sortedSteps reasoningSteps = reasoningSteps.
Proof.
  induction 1 as [|x l Hl IH Hx]; [done|]. simpl. rewrite IH.
  destruct Hx as [|y l' Hxy]; [done|]. simpl.
  unfold earlier in Hxy. by rewrite (proj2 (Z.leb_le _ _) Hxy).
Qed.

Lemma sortedSteps_arrival_order_witness :
  let step (time : Z) := ReasoningStep.mk [] (u16 "info") [] None time in
  sortedSteps [step 1%Z; step 1%Z; step 4%Z]
  = [step 1%Z; step 1%Z; step 4%Z].
Proof.
  intros step. apply sortedSteps_arrival_order.
  repeat constructor; unfold earlier; simpl; lia.
Defined.

End Steps.

(** * Further properties of the session controller *)

Section Ids.

Lemma bytes_of_inj a b : bytes_of a = bytes_of b -> a = b.
Proof.
  unfold bytes_of. intros H.
  rewrite <- (string_of_list_ascii_of_string a),
          <- (string_of_list_ascii_of_string b).
  f_equal. revert H.
  generalize (list_ascii_of_string a) (list_ascii_of_string b).
  induction l as [|x l IH]; intros [|y l']; simpl; intros H; try done.
  injection H as Hxy H. f_equal; [|by apply IH].
  by rewrite <- (ascii_N_embedding x), <- (ascii_N_embedding y), Hxy.
Qed.

(** Two numbers print alike only when they are equal. *)
Lemma Number_toString_inj a b : Number_toString a = Number_toString b -> a = b.
Proof.
  unfold Number_toString. intros H%bytes_of_inj.
  assert (forall z, NilZero.int_of_string (NilZero.string_of_int (Z.to_int z))
                    = Some (Z.to_int z)) as Hisi.
  { intros z. apply NilZero.isi; destruct z; simpl; try done;
      intros [= E]; by apply Unsigned.to_uint_nonnil in E. }
  apply DecimalZ.to_int_inj.
  pose proof (Hisi a) as Ha. rewrite H, Hisi in Ha. by injection Ha.
Qed.

(** The entries a history load builds carry pairwise different ids. *)
Theorem loadChatHistory_ids_distinct (h : Host) (chatId : jsstring)
    (fetched : Fetched History.response) (w : World) :
  NoDup (Message.id <$> messages (loadChatHistory h chatId fetched w)).
Proof.
  destruct (loadChatHistory_messages h chatId fetched w) as (-> & _).
  apply NoDup_alt. intros i j x.
  rewrite !list_lookup_fmap, !list_lookup_imap.
  destruct (returnedWindow fetched !! i) as [e1|]; [|done].
  destruct (returnedWindow fetched !! j) as [e2|]; [|done].
  simpl. intros [= <-] [= E].
  apply app_inv_head in E. injection E as E.
  apply Number_toString_inj in E. lia.
Qed.

End Ids.

Section Composition.

Variable t : Turn.

(** [codePoints] cuts a string into pieces of one code unit, or of the two
    code units of a surrogate pair, that join back to the string. *)
Theorem codePoints_pieces (s : jsstring) :
  mjoin (codePoints s) = s
  /\ Forall (fun piece =>
               (exists c, piece = [c])
               \/ (exists c d, piece = [c; d] /\ isHighSurrogate c = true
                               /\ isLowSurrogate d = true))
            (codePoints s).
Proof.
  split; [apply codePoints_join|].
  remember (length s) as n eqn:Hn. revert s Hn.
  induction n as [n IH] using lt_wf_ind. intros s ->.
  destruct s as [|c [|d s]]; [constructor | repeat constructor; eauto |].
  change (codePoints (c :: d :: s))
    with (if isHighSurrogate c && isLowSurrogate d
          then [c; d] :: codePoints s else [c] :: codePoints (d :: s)).
  destruct (isHighSurrogate c && isLowSurrogate d) eqn:E.
  - apply andb_true_iff in E as [? ?]. constructor; [right; eauto|].
    apply (IH (length s)); [simpl; lia | done].
  - constructor; [left; eauto|].
    apply (IH (length (d :: s))); [simpl; lia | done].
Qed.

(** How the answer is cut into token events does not matter: two token
    events in a row leave the state, and the accumulated text, that one
    token event with the joined payload leaves. *)
Theorem onEvent_token_chunks (h1 h2 h3 : Host) (a b acc : jsstring) (w : World) :
  let '(_, acc1, w1) :=
    onEvent h1 t {| event := u16 "token"; data := JStr a |} acc w in
  onEvent h2 t {| event := u16 "token"; data := JStr b |} acc1 w1
  = onEvent h3 t {| event := u16 "token"; data := JStr (a ++ b) |} acc w.
Proof.
  rewrite (onEvent_token t h1). cbv beta zeta iota.
  rewrite !onEvent_token. cbv beta zeta iota.
  rewrite <- app_assoc.
  destruct a as [|x a], b as [|y b]; try done.
  - by rewrite !app_nil_r.
  - cbn [app]. f_equal.
    change (setMessages ?f (setMessages ?g w)) with (setMessages (f ∘ g) w).
    apply setMessages_ext. simpl. by rewrite mapMessage_compose.
Qed.

End Composition.

Section Runs.

Variable t : Turn.

Ltac by_event ev :=
  unfold onEvent;
  destruct (streq (event ev) (u16 "token")) eqn:Etoken;
  [| destruct (streq (event ev) (u16 "reasoning")) eqn:Ereasoning;
   [| destruct (streq (event ev) (u16 "tool_state")) eqn:Etool;
    [| destruct (streq (event ev) (u16 "metadata")) eqn:Emeta;
     [| destruct (streq (event ev) (u16 "error")) eqn:Eerror;
      [| destruct (streq (event ev) (u16 "result")) eqn:Eresult ]]]]].

Ltac closed_names :=
  repeat match goal with
         | |- context [streq (u16 ?a) (u16 ?b)] =>
           let v := eval vm_compute in (streq (u16 a) (u16 b)) in
           change (streq (u16 a) (u16 b)) with v
         end;
  cbv iota.

Abbreviation shows := (placeholderShows t).

Lemma onEvent_step h ev acc w :
  nonTerminal (Yield h ev) ->
  exists w',
    onEvent h t ev acc w = (Continue, acc ++ tokenPayload (Yield h ev), w')
    /\ conversations w' = conversations w
    /\ toolState w' = default (toolState w) (last (toolStatesOf [Yield h ev]))
    /\ toasts w' = toasts w
    /\ sameControl w w'
    /\ forall ph steps thinking,
        last (messages w) = Some ph -> shows acc steps thinking ph ->
        exists ph',
          last (messages w') = Some ph'
          /\ shows (acc ++ tokenPayload (Yield h ev))
               (steps ++ reasoningOf t [Yield h ev]) thinking ph'.
Proof.
  intros [Herror Hresult]. unfold tokenPayload, toolStatesOf, reasoningOf.
  cbn [omap list_omap]. apply streq_false in Herror, Hresult.
  by_event ev; try congruence;
    try (match goal with
         | H : streq (event ev) _ = true |- _ =>
           apply streq_true in H; rewrite H
         end; closed_names);
    rewrite ?Etool, ?Ereasoning; cbn [andb]; rewrite ?app_nil_r.
  - rewrite appendChar_loop, codePoints_join. eexists; split; [done|].
    assert (forall s, codePoints s = [] -> s = []) as Hnil.
    { intros s E. by rewrite <- (codePoints_join s), E. }
    destruct (codePoints _) as [|c cs] eqn:Hc.
    + rewrite (Hnil _ Hc), app_nil_r. do 4 (split; [done|]).
      intros ph steps thinking Hlast Hph; rewrite ?app_nil_r. by exists ph.
    + do 4 (split; [done|]).
      intros ph steps thinking Hlast (Hid & Huser & Htext & Hsteps & Hth);
      rewrite ?app_nil_r.
      eexists. cbn [messages setMessages].
      split; [by apply mapMessage_last|]. by repeat split.
  - eexists; split; [done|]. do 4 (split; [done|]).
    intros ph steps thinking Hlast (Hid & Huser & Htext & Hsteps & Hth);
      rewrite ?app_nil_r.
    eexists. cbn [messages setMessages].
    split; [by apply mapMessage_last|].
    repeat split; try done. simpl. by rewrite Hsteps.
  - rewrite isObject_spec.
    destruct (isObject (data ev)); (eexists; split; [done|]);
      do 4 (split; [done|]); intros ph steps thinking Hlast Hph;
      exists ph; by rewrite ?app_nil_r.
  - eexists; split; [done|]. do 4 (split; [done|]).
    intros ph steps thinking Hlast Hph; rewrite ?app_nil_r. by exists ph.
  - eexists; split; [done|]. do 4 (split; [done|]).
    intros ph steps thinking Hlast Hph; rewrite ?app_nil_r. by exists ph.
Qed.

Lemma last_toolStates (a b : list json) (previous : json) :
  default (default previous (last a)) (last b) = default previous (last (a ++ b)).
Proof.
  destruct b as [|x b] using rev_ind; [by rewrite app_nil_r|].
  by rewrite app_assoc, !last_snoc.
Qed.

(** A run of events that do not end the stream. *)
Lemma forAwait_run pre : forall acc w,
  Forall nonTerminal pre ->
  exists w',
    forAwait t pre acc w = (Done, acc ++ tokenText pre, w')
    /\ (forall rest,
          forAwait t (pre ++ rest) acc w
          = forAwait t rest (acc ++ tokenText pre) w')
    /\ conversations w' = conversations w
    /\ toolState w' = default (toolState w) (last (toolStatesOf pre))
    /\ toasts w' = toasts w
    /\ sameControl w w'
    /\ forall ph steps thinking,
        last (messages w) = Some ph -> shows acc steps thinking ph ->
        exists ph',
          last (messages w') = Some ph'
          /\ shows (acc ++ tokenText pre) (steps ++ reasoningOf t pre)
               thinking ph'.
Proof.
  induction pre as [|item pre IH]; intros acc w Hpre.
  - exists w. unfold tokenText. simpl. rewrite app_nil_r.
    do 6 (split; [done|]). intros ph steps thinking ??. exists ph.
    by rewrite app_nil_r.
  - apply Forall_cons in Hpre as [Hitem Hpre].
    destruct item as [h ev|e]; [|done].
    destruct (onEvent_step h ev acc w Hitem)
      as (w1 & Hstep & Hc1 & Hts1 & Hto1 & Hs1 & Hph1).
    destruct (IH (acc ++ tokenPayload (Yield h ev)) w1 Hpre)
      as (w' & Hrun & Hrest & Hc' & Hts' & Hto' & Hs' & Hph').
    exists w'.
    assert (tokenText (Yield h ev :: pre)
            = tokenPayload (Yield h ev) ++ tokenText pre) as -> by done.
    rewrite app_assoc.
    split; [by cbn [forAwait]; rewrite Hstep|].
    split; [intros rest; by cbn [forAwait app]; rewrite Hstep|].
    split; [congruence|].
    split.
    { rewrite Hts', Hts1.
      assert (toolStatesOf (Yield h ev :: pre)
              = toolStatesOf [Yield h ev] ++ toolStatesOf pre) as ->.
      { unfold toolStatesOf. cbn [omap list_omap].
        by destruct (streq (event ev) (u16 "tool_state") && isObject (data ev)). }
      apply last_toolStates. }
    split; [congruence|].
    split; [by eapply sameControl_trans|].
    intros ph steps thinking Hlast Hph.
    destruct (Hph1 ph steps thinking Hlast Hph) as (ph1 & Hlast1 & Hshow1).
    destruct (Hph' ph1 _ thinking Hlast1 Hshow1) as (ph' & Hlast' & Hshow').
    exists ph'. split; [done|].
    assert (reasoningOf t (Yield h ev :: pre)
            = reasoningOf t [Yield h ev] ++ reasoningOf t pre) as ->.
    { unfold reasoningOf. cbn [omap list_omap].
      by destruct (streq (event ev) (u16 "reasoning")). }
    by rewrite app_assoc.
Qed.

End Runs.

Section Activations.

(** The state a submit leaves, in full. *)
Lemma handleSendMessage_begin_full h text w :
  let '(t, w0) := handleSendMessage_begin h text w in
  aiMessageId t = Number_toString (now h + 1)
  /\ chatId t = match currentConversationId w with
                | Some (c :: id') => c :: id'
                | _ => Number_toString (now h)
                end
  /\ messages w0 =
     messages w
       ++ [Message.mk (Number_toString (now h)) text true (now h) None None;
           Message.mk (Number_toString (now h + 1)) [] false (now h)
             (Some []) (Some true)]
  /\ conversations w0 =
     mapConversation (chatId t)
       (Conversation.with_preview (slice 0 50 text) (now h))
       match currentConversationId w with
       | Some (_ :: _) => conversations w
       | _ =>
         Conversation.mk (Number_toString (now h))
           (slice 0 30 text ++ (if (30 <? length text)%nat then u16 "..." else []))
           (Some (slice 0 50 text)) (now h)
         :: conversations w
       end
  /\ currentConversationId w0 = Some (chatId t)
  /\ toolState w0 = toolState w
  /\ toasts w0 = toasts w
  /\ abortControllerRef w0 = Some (controller t)
  /\ streams w0 = streams w ++ [(controller t, Request.mk text (chatId t))].
Proof.
  unfold handleSendMessage_begin, abortPrevious, ensureConversation,
    appendEntries, openStream, newAbortController.
  destruct (abortControllerRef w) as [c|] eqn:Href;
    destruct (currentConversationId w) as [[|c0 id0]|] eqn:Hcur;
    cbn -[u16 Number_toString slice mapConversation];
    rewrite ?Href, ?Hcur;
    cbn -[u16 Number_toString slice mapConversation];
    rewrite <- ?app_assoc; by repeat split.
Qed.

(** The placeholder a submit appends. *)
Lemma placeholder_after_begin h text w :
  let '(t, w0) := handleSendMessage_begin h text w in
  exists ph, last (messages w0) = Some ph
             /\ placeholderShows t [] [] (Some true) ph.
Proof.
  pose proof (handleSendMessage_begin_full h text w) as H.
  destruct (handleSendMessage_begin h text w) as [t w0].
  destruct H as (Hid & _ & -> & _). eexists. rewrite last_two.
  split; [done|]. by repeat split.
Qed.

(** On a page that has a current conversation, every reasoning event adds
    one step to the placeholder, in the order of arrival and without looking
    at the steps that are there: after a run of events the placeholder holds
    one step for each reasoning event received, equal events included.  The
    current conversation is the one from before the submit, so the history
    effect has nothing to load. *)
Theorem handleSendMessage_reasoning_steps (h : Host) (text : jsstring)
    (w : World) (pre : list StreamItem) :
  hasCurrent w -> Forall nonTerminal pre ->
  let '(t, w0) := handleSendMessage_begin h text w in
  let '(_, _, w1) := forAwait t pre [] w0 in
  (exists ph,
      last (messages w1) = Some ph
      /\ Message.id ph = aiMessageId t
      /\ Message.reasoningSteps ph = Some (reasoningOf t pre))
  /\ length (reasoningOf t pre) = length (filter isReasoning pre)
  /\ currentConversationId w1 = currentConversationId w.
Proof.
  intros Hw Hpre. pose proof (placeholder_after_begin h text w) as Hph.
  pose proof (handleSendMessage_begin_current h text w Hw) as Hcur.
  destruct (handleSendMessage_begin h text w) as [t w0].
  destruct Hph as (ph & Hlast & Hshow). destruct Hcur as [Hcur _].
  destruct (forAwait_run t pre [] w0 Hpre)
    as (w1 & -> & _ & _ & _ & _ & (Hc1 & _) & H).
  destruct (H ph [] (Some true) Hlast Hshow) as (ph' & Hlast' & Hid & _ & _ & Hsteps & _).
  split; [by exists ph'|]. split; [|congruence].
  clear. induction pre as [|[h ev|e] pre IH]; [done| |done].
  unfold reasoningOf in *. cbn [omap list_omap]. rewrite filter_cons.
  case_decide as Hd; unfold isReasoning in Hd.
  - apply Is_true_true in Hd. rewrite Hd. simpl. by rewrite IH.
  - apply Is_true_false in Hd. by rewrite Hd.
Qed.

Lemma handleSendMessage_reasoning_steps_witness :
  let reasoning :=
    Yield sampleHost {| event := u16 "reasoning"; data := JStr (u16 "plan") |} in
  let pre := [reasoning; reasoning] in
  Forall nonTerminal pre
  /\ hasCurrent readyWorld
  /\ let '(t, w0) := handleSendMessage_begin sampleHost (u16 "hi") readyWorld in
     let '(_, _, w1) := forAwait t pre [] w0 in
     exists ph, last (messages w1) = Some ph
                /\ (length <$> Message.reasoningSteps ph) = Some 2%nat.
Proof.
  intros reasoning pre.
  assert (Forall nonTerminal pre) as Hpre by (repeat constructor; by vm_compute).
  assert (hasCurrent readyWorld) as Hw by (by vm_compute).
  split; [exact Hpre|]. split; [exact Hw|].
  pose proof (handleSendMessage_reasoning_steps sampleHost (u16 "hi")
                readyWorld pre Hw Hpre) as H.
  destruct (handleSendMessage_begin sampleHost (u16 "hi") readyWorld) as [t w0].
  destruct (forAwait t pre [] w0) as [[c acc] w1].
  destruct H as ((ph & Hlast & _ & Hsteps) & Hlen & _).
  exists ph. split; [exact Hlast|]. rewrite Hsteps. cbn [fmap option_fmap option_map].
  rewrite Hlen. by vm_compute.
Defined.

(** After a run of events the tool state is the payload of the last
    [tool_state] event that carried an object, and the tool state from
    before the turn when there was none. *)
Theorem handleSendMessage_tool_state_last (h : Host) (text : jsstring)
    (w : World) (pre : list StreamItem) :
  Forall nonTerminal pre ->
  let '(t, w0) := handleSendMessage_begin h text w in
  let '(_, _, w1) := forAwait t pre [] w0 in
  toolState w1 = default (toolState w) (last (toolStatesOf pre)).
Proof.
  intros Hpre. pose proof (handleSendMessage_begin_full h text w) as Hb.
  destruct (handleSendMessage_begin h text w) as [t w0].
  destruct Hb as (_ & _ & _ & _ & _ & Hts & _).
  destruct (forAwait_run t pre [] w0 Hpre) as (w1 & -> & _ & _ & -> & _).
  by rewrite Hts.
Qed.

Lemma handleSendMessage_tool_state_last_witness :
  let state (s : string) :=
    Yield sampleHost
      {| event := u16 "tool_state"; data := JObj [(u16 s, JNull)] |} in
  let pre :=
    [state "a"%string; state "b"%string;
     Yield sampleHost {| event := u16 "tool_state"; data := JStr (u16 "c") |}] in
  Forall nonTerminal pre
  /\ let '(t, w0) := handleSendMessage_begin sampleHost (u16 "hi") initialWorld in
     let '(_, _, w1) := forAwait t pre [] w0 in
     toolState w1 = JObj [(u16 "b", JNull)].
Proof.
  intros state pre.
  assert (Forall nonTerminal pre) as Hpre by (repeat constructor; by vm_compute).
  split; [exact Hpre|].
  pose proof (handleSendMessage_tool_state_last sampleHost (u16 "hi")
                initialWorld pre Hpre) as H.
  destruct (handleSendMessage_begin sampleHost (u16 "hi") initialWorld) as [t w0].
  destruct (forAwait t pre [] w0) as [[c acc] w1].
  rewrite H. by vm_compute.
Defined.

(** On a page that has a current conversation, when the stream throws
    anything but the abort error, the placeholder is given the error text:
    the message of the error, or the default when the thrown value is no
    error; its thinking flag is cleared, the failure is notified and logged,
    and the page stops loading.  The current conversation is the one from
    before the submit, so the history effect has nothing to load. *)
Theorem handleSendMessage_transport_failure (h : Host) (text : jsstring)
    (w : World) (pre : list StreamItem) (error : Thrown)
    (post : list StreamItem) :
  hasCurrent w -> Forall nonTerminal pre -> isAbortError error = false ->
  let '(t, w0) := handleSendMessage_begin h text w in
  let w' := handleSendMessage_resume t (pre ++ Throw error :: post) [] w0 in
  let errorMessage := messageOr (u16 "연결 오류가 발생했습니다.") error in
  (exists ph,
      last (messages w') = Some ph
      /\ placeholderShows t (u16 "오류: " ++ errorMessage) (reasoningOf t pre)
           (Some false) ph)
  /\ toasts w' =
     toasts w ++ [Toast.mk (u16 "연결 오류") (JStr errorMessage)
                    (Some (u16 "destructive"))]
  /\ last (console w') = Some (ConsoleError (u16 "Chat stream error:") error)
  /\ isLoading w' = false /\ abortControllerRef w' = None
  /\ currentConversationId w' = currentConversationId w.
Proof.
  intros Hw Hpre Herr. pose proof (placeholder_after_begin h text w) as Hph.
  pose proof (handleSendMessage_begin_full h text w) as Hb.
  pose proof (handleSendMessage_begin_current h text w Hw) as Hcur.
  destruct (handleSendMessage_begin h text w) as [t w0].
  destruct Hph as (ph & Hlast & Hshow). destruct Hcur as [Hcur _].
  destruct Hb as (_ & _ & _ & _ & _ & _ & Htoast & _).
  destruct (forAwait_run t pre [] w0 Hpre)
    as (w1 & _ & Hrun & _ & _ & Hto & (Hc1 & _) & H).
  destruct (H ph [] (Some true) Hlast Hshow)
    as (ph' & Hlast' & Hid & Huser & _ & Hsteps & _).
  unfold handleSendMessage_resume. rewrite Hrun.
  cbn [forAwait handleSendMessage_end]. rewrite Herr.
  cbn [messages setMessages toast toasts log console currentConversationId
         setIsLoading setAbortControllerRef settle isLoading abortControllerRef].
  split; [|by rewrite Hto, Htoast, last_snoc, Hc1].
  eexists. split.
  { repeat eapply mapMessage_last; [exact Hlast' | exact Hid..]. }
  by repeat split.
Qed.

Lemma handleSendMessage_transport_failure_witness :
  let pre :=
    [Yield sampleHost {| event := u16 "token"; data := JStr (u16 "Hel") |}] in
  let items := pre ++ [Throw (OtherError (u16 "network down"))] in
  hasCurrent readyWorld
  /\ exists ph,
    last (messages (handleSendMessage sampleHost (u16 "hi") items readyWorld))
    = Some ph
    /\ Message.text ph = u16 "오류: network down".
Proof.
  intros pre items.
  assert (Forall nonTerminal pre) as Hpre by (repeat constructor; by vm_compute).
  assert (hasCurrent readyWorld) as Hw by (by vm_compute).
  split; [exact Hw|].
  pose proof (handleSendMessage_transport_failure sampleHost (u16 "hi")
                readyWorld pre (OtherError (u16 "network down")) []
                Hw Hpre eq_refl) as H.
  unfold handleSendMessage, items.
  destruct (handleSendMessage_begin sampleHost (u16 "hi") readyWorld) as [t w0].
  destruct H as ((ph & Hlast & (_ & _ & Htext & _)) & _).
  exists ph. split; [exact Hlast|]. rewrite Htext. by vm_compute.
Defined.

(** On a page that has a current conversation, when the stream ends
    without [result] and without [error], nothing tells the user: the
    placeholder keeps the text received, its thinking flag is cleared and
    the page stops loading, as after a [result], but the preview of the
    conversation is still the one the submit wrote and no notification is
    raised.  The current conversation is the one from before the submit, so
    the history effect has nothing to load. *)
Theorem handleSendMessage_stream_ends (h : Host) (text : jsstring)
    (w : World) (pre : list StreamItem) :
  hasCurrent w -> Forall nonTerminal pre ->
  let '(t, w0) := handleSendMessage_begin h text w in
  let w' := handleSendMessage_resume t pre [] w0 in
  (exists ph,
      last (messages w') = Some ph
      /\ placeholderShows t (tokenText pre) (reasoningOf t pre) (Some false) ph)
  /\ toasts w' = toasts w
  /\ conversations w' = conversations w0
  /\ isLoading w' = false /\ abortControllerRef w' = None
  /\ currentConversationId w' = currentConversationId w.
Proof.
  intros Hw Hpre. pose proof (placeholder_after_begin h text w) as Hph.
  pose proof (handleSendMessage_begin_full h text w) as Hb.
  pose proof (handleSendMessage_begin_current h text w Hw) as Hcur.
  destruct (handleSendMessage_begin h text w) as [t w0].
  destruct Hph as (ph & Hlast & Hshow). destruct Hcur as [Hcur _].
  destruct Hb as (_ & _ & _ & _ & _ & _ & Htoast & _).
  destruct (forAwait_run t pre [] w0 Hpre)
    as (w1 & Hrun & _ & Hconv & _ & Hto & (Hc1 & _) & H).
  destruct (H ph [] (Some true) Hlast Hshow)
    as (ph' & Hlast' & Hid & Huser & Htext & Hsteps & _).
  unfold handleSendMessage_resume. rewrite Hrun.
  cbn [handleSendMessage_end messages setMessages toasts conversations
         currentConversationId
         setIsLoading setAbortControllerRef settle isLoading abortControllerRef].
  split; [|by rewrite Hto, Htoast, Hc1].
  eexists. split; [by eapply mapMessage_last|]. by repeat split.
Qed.

Lemma handleSendMessage_stream_ends_witness :
  let pre :=
    [Yield sampleHost {| event := u16 "token"; data := JStr (u16 "Hel") |}] in
  let w' := handleSendMessage sampleHost (u16 "hi") pre readyWorld in
  hasCurrent readyWorld /\ toasts w' = [] /\ isLoading w' = false.
Proof.
  intros pre w'.
  assert (Forall nonTerminal pre) as Hpre by (repeat constructor; by vm_compute).
  assert (hasCurrent readyWorld) as Hw by (by vm_compute).
  split; [exact Hw|].
  pose proof (handleSendMessage_stream_ends sampleHost (u16 "hi")
                readyWorld pre Hw Hpre) as H.
  unfold w', handleSendMessage.
  destruct (handleSendMessage_begin sampleHost (u16 "hi") readyWorld) as [t w0].
  destruct H as (_ & Hto & _ & Hload & _). split; [|exact Hload].
  rewrite Hto. by vm_compute.
Defined.

(** After a turn that ended with [result], the conversations that carry the
    turn's chat id show the first 80 code units of the answer as their
    preview, stamped with the time of the event; the other conversations are
    as the submit left them. *)
Theorem handleSendMessage_result_preview (h : Host) (text : jsstring)
    (w : World) (pre : list StreamItem) (hr : Host) (payload : json)
    (post : list StreamItem) :
  Forall nonTerminal pre ->
  let '(t, w0) := handleSendMessage_begin h text w in
  let items :=
    pre ++ Yield hr {| event := u16 "result"; data := payload |} :: post in
  let w' := handleSendMessage_resume t items [] w0 in
  length (conversations w') = length (conversations w0)
  /\ (forall i conv,
         conversations w0 !! i = Some conv ->
         conversations w' !! i =
         Some (if streq (Conversation.id conv) (chatId t)
               then Conversation.mk (Conversation.id conv)
                      (Conversation.title conv)
                      (Some (take 80 (tokenText pre))) (now hr)
               else conv))
  /\ (length (take 80 (tokenText pre)) <= 80)%nat.
Proof.
  intros Hpre.
  destruct (handleSendMessage_begin h text w) as [t w0].
  destruct (forAwait_run t pre [] w0 Hpre)
    as (w1 & _ & Hrun & Hconv & _).
  unfold handleSendMessage_resume. rewrite Hrun.
  cbn [forAwait]. rewrite onEvent_result.
  cbn [handleSendMessage_end conversations setMessages setConversations
         setIsLoading setAbortControllerRef settle].
  rewrite Hconv. split; [apply mapConversation_length|].
  split; [|rewrite length_take; lia].
  intros i conv Hi. unfold mapConversation.
  rewrite list_lookup_fmap, Hi. simpl.
  by destruct (streq _ _).
Qed.

Lemma handleSendMessage_result_preview_witness :
  let pre :=
    [Yield sampleHost {| event := u16 "token"; data := JStr (u16 "Hello") |}] in
  let items :=
    pre ++ [Yield sampleHost {| event := u16 "result"; data := JNull |}] in
  length (conversations
            (handleSendMessage sampleHost (u16 "hi") items initialWorld))
  = 1%nat.
Proof.
  intros pre items.
  assert (Forall nonTerminal pre) as Hpre by (repeat constructor; by vm_compute).
  pose proof (handleSendMessage_result_preview sampleHost (u16 "hi")
                initialWorld pre sampleHost JNull [] Hpre) as H.
  pose proof (handleSendMessage_begin_full sampleHost (u16 "hi") initialWorld)
    as Hb.
  unfold handleSendMessage, items.
  destruct (handleSendMessage_begin sampleHost (u16 "hi") initialWorld) as [t w0].
  destruct H as (-> & _). destruct Hb as (_ & _ & _ & -> & _).
  by rewrite mapConversation_length.
Defined.

End Activations.

(** * Whole activations, whatever the stream delivers *)

Section Activity.

Lemma Number_toString_digits n :
  exists sign ds,
    Number_toString n = sign ++ ds
    /\ (sign = [] \/ sign = [45])
    /\ ds <> [] /\ Forall (fun c => isDigit c = true) ds.
Proof.
  assert (forall d, Forall (fun c => isDigit c = true)
                      (bytes_of (NilEmpty.string_of_uint d))) as Hd.
  { induction d; simpl; try constructor; done. }
  assert (forall d, d <> Decimal.Nil ->
                    bytes_of (NilEmpty.string_of_uint d) <> []) as Hne.
  { by destruct d. }
  assert (forall d, bytes_of (NilZero.string_of_uint d) <> []
                    /\ Forall (fun c => isDigit c = true)
                         (bytes_of (NilZero.string_of_uint d))) as Hz.
  { intros d. destruct d; try (split; [by apply Hne | apply Hd]).
    split; [done | by repeat constructor]. }
  unfold Number_toString.
  destruct (Z.to_int n) as [d|d]; cbn [NilZero.string_of_int].
  - exists [], (bytes_of (NilZero.string_of_uint d)).
    destruct (Hz d). by repeat split; [left|..].
  - exists [45], (bytes_of (NilZero.string_of_uint d)).
    destruct (Hz d). by repeat split; [right|..].
Qed.

Lemma Number_toString_nonempty n : Number_toString n <> [].
Proof.
  destruct (Number_toString_digits n) as (sign & ds & -> & _ & Hne & _).
  by destruct sign, ds.
Qed.

(** The id of a loaded entry is not the print of a number: it has a hyphen
    after its first code unit. *)
Lemma loadedMessage_id_fresh h chatId idx msg n :
  chatId <> [] -> Message.id (loadedMessage h chatId idx msg) <> Number_toString n.
Proof.
  intros Hne E. cbn [loadedMessage Message.id] in E.
  destruct (Number_toString_digits n) as (sign & ds & Hn & Hsign & _ & Hds).
  rewrite Hn in E. change (u16 "-") with [45] in E.
  assert (45 ∈ ds) as Hin.
  { destruct chatId as [|c id']; [done|].
    destruct Hsign as [-> | ->]; cbn [app] in E.
    - rewrite <- E. set_solver.
    - injection E as _ E. rewrite <- E. set_solver. }
  rewrite Forall_forall in Hds. by apply Hds in Hin.
Qed.

Lemma mapMessage_fresh id f l :
  Forall (fun msg => Message.id msg <> id) l -> mapMessage id f l = l.
Proof.
  intros H. unfold mapMessage. rewrite <- (list_fmap_id l) at 2.
  apply Forall_fmap_ext_1. eapply Forall_impl; [exact H|].
  intros msg Hid. simpl. by rewrite (proj2 (streq_false _ _) Hid).
Qed.

Lemma keepsIdentity_compose f g :
  keepsIdentity f -> keepsIdentity g -> keepsIdentity (f ∘ g).
Proof.
  intros Hf Hg msg. simpl. destruct (Hf (g msg)) as [-> ->]. apply Hg.
Qed.

Lemma mapConversation_ids id l preview time :
  Conversation.id <$> mapConversation id (Conversation.with_preview preview time) l
  = Conversation.id <$> l.
Proof.
  unfold mapConversation. rewrite <- list_fmap_compose.
  apply list_fmap_ext. intros _ conv _. simpl. by destruct (streq _ _).
Qed.

(** One event keeps the ids of the conversations. *)
Lemma onEvent_conversation_ids h t ev acc w :
  Conversation.id <$> conversations (onEvent h t ev acc w).2
  = Conversation.id <$> conversations w.
Proof.
  destruct (streq (event ev) (u16 "result")) eqn:E.
  - destruct ev as [name payload]. cbn [event] in E.
    apply streq_true in E. subst name. rewrite onEvent_result.
    cbn [snd conversations setMessages setConversations].
    apply mapConversation_ids.
  - apply streq_false in E.
    destruct (onEvent_shape t h ev acc w) as (_ & _ & _ & _ & _ & Hc & _).
    by rewrite Hc.
Qed.

(** The loop, whatever the stream delivers. *)
Lemma forAwait_any t items : forall acc w,
  exists f,
    keepsIdentity f
    /\ messages (forAwait t items acc w).2 = mapMessage (aiMessageId t) f (messages w)
    /\ Conversation.id <$> conversations (forAwait t items acc w).2
       = Conversation.id <$> conversations w
    /\ sameControl w (forAwait t items acc w).2.
Proof.
  induction items as [|[h ev|e] items IH]; intros acc w.
  - exists (fun msg => msg). cbn [forAwait snd]. rewrite mapMessage_id.
    by repeat split.
  - cbn [forAwait].
    destruct (onEvent_shape t h ev acc w) as (f & _ & Hf & Hm & _ & _ & _ & Hs).
    pose proof (onEvent_conversation_ids h t ev acc w) as Hc.
    destruct (onEvent h t ev acc w) as [[[] acc'] w']; cbn [snd] in *.
    + destruct (IH acc' w') as (f' & Hf' & Hm' & Hc' & Hs').
      exists (f' ∘ f). split; [by apply keepsIdentity_compose|].
      split; [|split; [congruence | by eapply sameControl_trans]].
      rewrite Hm', Hm. apply mapMessage_compose. intros msg. apply Hf.
    + by exists f.
  - exists (fun msg => msg). cbn [forAwait snd]. rewrite mapMessage_id.
    by repeat split.
Qed.

(** The [catch] and [finally] blocks clear the thinking flag of the entries
    with the id of the placeholder, whichever way the loop was left. *)
Lemma handleSendMessage_end_any t completion acc w :
  let w' := handleSendMessage_end t (completion, acc, w) in
  (exists f,
      keepsIdentity f
      /\ (forall msg, Message.isThinking (f msg) = Some false)
      /\ messages w' = mapMessage (aiMessageId t) f (messages w))
  /\ conversations w' = conversations w
  /\ currentConversationId w' = currentConversationId w
  /\ toolState w' = toolState w
  /\ isLoading w' = false
  /\ abortControllerRef w' = None
  /\ controllers w' = controllers w
  /\ aborted w' = aborted w
  /\ streams w' = streams w
  /\ settled w' = settled w ++ [controller t].
Proof.
  unfold handleSendMessage_end.
  destruct completion as [| |error]; [| |destruct (isAbortError error)];
    cbn [messages setMessages conversations currentConversationId toolState
           isLoading abortControllerRef controllers aborted streams settled
           setIsLoading setAbortControllerRef settle toast log];
    (split; [|by repeat split]);
    rewrite ?mapMessage_compose by done;
    eexists; (split; [|split; [|reflexivity]]); done.
Qed.

(** An activation from its first statement to its last. *)
Lemma handleSendMessage_any h text items w :
  let '(t, w0) := handleSendMessage_begin h text w in
  let w' := handleSendMessage_resume t items [] w0 in
  (exists f,
      keepsIdentity f
      /\ (forall msg, Message.isThinking (f msg) = Some false)
      /\ messages w' = mapMessage (aiMessageId t) f (messages w0))
  /\ Conversation.id <$> conversations w' = Conversation.id <$> conversations w0
  /\ currentConversationId w' = currentConversationId w0
  /\ isLoading w' = false
  /\ abortControllerRef w' = None
  /\ controllers w' = controllers w0
  /\ aborted w' = aborted w0
  /\ streams w' = streams w0
  /\ settled w' = settled w0 ++ [controller t].
Proof.
  destruct (handleSendMessage_begin h text w) as [t w0].
  unfold handleSendMessage_resume.
  destruct (forAwait_any t items [] w0) as (f & Hf & Hm & Hc & Hs).
  destruct (forAwait t items [] w0) as [[completion acc] w1]. cbn [snd] in *.
  destruct (handleSendMessage_end_any t completion acc w1)
    as ((g & Hg & Hth & Hm') & Hc' & Hcur & _ & Hload & Href & Hn & Ha & Hst & Hse).
  destruct Hs as (Hs1 & _ & _ & _ & Hs5 & Hs6 & Hs7 & Hs8).
  split; [|repeat split; congruence].
  exists (g ∘ f). split; [by apply keepsIdentity_compose|].
  split; [intros msg; apply Hth|].
  rewrite Hm', Hm. apply mapMessage_compose. intros msg. apply Hf.
Qed.

(** Whatever the stream delivers, and however it ends, a submit settles:
    the page stops loading and holds no controller, the turn's stream is no
    longer in flight, the list has grown by the user's entry and the
    placeholder and by nothing else, no entry with the placeholder's id is
    left thinking, and the entries with another id are where and as they
    were. *)
Theorem handleSendMessage_settles (h : Host) (text : jsstring)
    (items : list StreamItem) (w : World) :
  let w' := handleSendMessage h text items w in
  let userId := Number_toString (now h) in
  let aiId := Number_toString (now h + 1) in
  isLoading w' = false
  /\ abortControllerRef w' = None
  /\ (controllers w ∈ settled w')
  /\ (controllers w ∉ inFlight w')
  /\ Message.id <$> messages w' = (Message.id <$> messages w) ++ [userId; aiId]
  /\ Message.isUser <$> messages w'
     = (Message.isUser <$> messages w) ++ [true; false]
  /\ (forall msg, msg ∈ messages w' -> Message.id msg = aiId ->
                  Message.isThinking msg = Some false)
  /\ messages w' !! length (messages w)
     = Some (Message.mk userId text true (now h) None None)
  /\ (forall i msg, messages w !! i = Some msg -> Message.id msg <> aiId ->
                    messages w' !! i = Some msg).
Proof.
  intros w' userId aiId. subst w'. unfold handleSendMessage.
  pose proof (handleSendMessage_any h text items w) as H.
  pose proof (handleSendMessage_begin_full h text w) as Hb.
  pose proof (handleSendMessage_begin_spec h text w) as Hs.
  destruct (handleSendMessage_begin h text w) as [t w0].
  destruct H as ((f & Hf & Hth & Hm) & _ & _ & Hload & Href & _ & _ & _ & Hse).
  destruct Hb as (Hai & _ & Hm0 & _).
  destruct Hs as (_ & _ & _ & _ & _ & _ & _ & _ & _ & Hc & _).
  fold userId aiId in Hm0, Hai.
  assert (userId <> aiId) as Hne.
  { intros E%Number_toString_inj. lia. }
  split; [done|]. split; [done|].
  split; [rewrite Hse, Hc; apply elem_of_app; right; by apply list_elem_of_singleton|].
  split.
  { unfold inFlight. rewrite list_elem_of_filter, Hse, Hc.
    intros [[_ Hn] _]. apply Hn, elem_of_app. right. by apply list_elem_of_singleton. }
  assert (forall msg, Message.id (if streq (Message.id msg) (aiMessageId t)
                                  then f msg else msg) = Message.id msg) as Hid.
  { intros msg. destruct (streq _ _); [apply Hf | done]. }
  assert (forall msg, Message.isUser (if streq (Message.id msg) (aiMessageId t)
                                      then f msg else msg) = Message.isUser msg)
    as Huser.
  { intros msg. destruct (streq _ _); [apply Hf | done]. }
  rewrite Hm. unfold mapMessage. rewrite <- !list_fmap_compose.
  split.
  { rewrite (list_fmap_ext _ Message.id (messages w0))
      by (intros; apply Hid).
    by rewrite Hm0, fmap_app. }
  split.
  { rewrite (list_fmap_ext _ Message.isUser (messages w0))
      by (intros; apply Huser).
    by rewrite Hm0, fmap_app. }
  split.
  { intros msg (m & -> & _)%list_elem_of_fmap E. rewrite Hid in E.
    rewrite Hai, (proj2 (streq_true _ _) E). apply Hth. }
  split.
  { rewrite list_lookup_fmap, Hm0, lookup_app_r by done.
    rewrite Nat.sub_diag. cbn [lookup list_lookup fmap option_fmap option_map
                                 Message.id].
    by rewrite Hai, (proj2 (streq_false _ _) Hne). }
  intros i msg Hi Hid'.
  rewrite list_lookup_fmap, Hm0, lookup_app_l by (by eapply lookup_lt_Some).
  rewrite Hi. simpl. by rewrite Hai, (proj2 (streq_false _ _) Hid').
Qed.

(** A stream is the items received, then nothing or an item that ends the
    loop. *)
Lemma received_split items :
  Forall nonTerminal (received items)
  /\ exists tail,
      items = received items ++ tail
      /\ match tail with
         | [] => True
         | item :: _ => endsStream item = true
         end.
Proof.
  induction items as [|item items [IH (tail & Htail & Hend)]].
  - split; [constructor|]. by exists [].
  - cbn [received]. destruct (endsStream item) eqn:E.
    + split; [constructor|]. by exists (item :: items).
    + split.
      * constructor; [|done]. destruct item as [h ev|e]; [|done].
        cbn [endsStream] in E. apply orb_false_iff in E as [E1 E2].
        by split; apply streq_false.
      * exists tail. split; [|done]. cbn [app]. by f_equal.
Qed.

(** The item that ends the loop, and the blocks after the loop, leave the
    reasoning steps of the placeholder and the tool state as they are, and
    clear the thinking flag. *)
Lemma handleSendMessage_resume_ending t tail acc w ph :
  match tail with
  | [] => True
  | item :: _ => endsStream item = true
  end ->
  last (messages w) = Some ph -> Message.id ph = aiMessageId t ->
  let w' := handleSendMessage_resume t tail acc w in
  (exists ph',
      last (messages w') = Some ph'
      /\ Message.id ph' = Message.id ph
      /\ Message.isUser ph' = Message.isUser ph
      /\ Message.reasoningSteps ph' = Message.reasoningSteps ph
      /\ Message.isThinking ph' = Some false)
  /\ toolState w' = toolState w.
Proof.
  intros Hend Hlast Hid. unfold handleSendMessage_resume.
  destruct tail as [|[h [name payload]|e] post].
  - cbn [forAwait handleSendMessage_end messages setMessages toolState
           setIsLoading setAbortControllerRef settle].
    split; [|done]. eexists. split; [by eapply mapMessage_last|]. done.
  - cbn [endsStream event] in Hend. apply orb_true_iff in Hend as [E|E];
      apply streq_true in E; subst name; cbn [forAwait];
      [rewrite onEvent_error | rewrite onEvent_result];
      cbv beta zeta;
      cbn [handleSendMessage_end messages setMessages setConversations toast
             toolState setIsLoading setAbortControllerRef settle];
      (split; [|done]); eexists;
      (split; [repeat eapply mapMessage_last; [exact Hlast | exact Hid..]|]);
      done.
  - cbn [forAwait handleSendMessage_end].
    destruct (isAbortError e);
      cbn [messages setMessages toast log toolState setIsLoading
             setAbortControllerRef settle];
      (split; [|done]); eexists;
      (split; [repeat eapply mapMessage_last; [exact Hlast | exact Hid..]|]);
      done.
Qed.

Lemma existsb_isReasoning t items :
  existsb isReasoning items = (0 <? length (reasoningOf t items))%nat.
Proof.
  induction items as [|[h ev|e] items IH]; [done| |done].
  unfold reasoningOf in *. cbn [existsb isReasoning omap list_omap].
  by destruct (streq (event ev) (u16 "reasoning")).
Qed.

(** On a page that has a current conversation, whatever the stream
    delivers, after the activation the placeholder is the last entry, it is
    not thinking, and it holds one reasoning step for each reasoning event
    received before the item that ended the loop; so the message shows the
    toggle of its reasoning exactly when such an event was received.  The
    tool state is the last object a [tool_state] event received carried.
    The current conversation is the one from before the submit, so the
    history effect has nothing to load. *)
Theorem handleSendMessage_toggle (h : Host) (text : jsstring)
    (items : list StreamItem) (w : World) :
  hasCurrent w ->
  let w' := handleSendMessage h text items w in
  let t := (handleSendMessage_begin h text w).1 in
  (exists ph,
      last (messages w') = Some ph
      /\ Message.id ph = aiMessageId t /\ Message.isUser ph = false
      /\ Message.reasoningSteps ph = Some (reasoningOf t (received items))
      /\ Message.isThinking ph = Some false
      /\ ChatMessage.showToggle ph = existsb isReasoning (received items))
  /\ toolState w' = default (toolState w) (last (toolStatesOf (received items)))
  /\ currentConversationId w' = currentConversationId w.
Proof.
  intros Hw w' t. subst w' t. unfold handleSendMessage.
  pose proof (placeholder_after_begin h text w) as Hph.
  pose proof (handleSendMessage_begin_full h text w) as Hb.
  pose proof (handleSendMessage_begin_current h text w Hw) as Hcur.
  pose proof (handleSendMessage_any h text items w) as Hcur'.
  destruct (handleSendMessage_begin h text w) as [t w0]. cbn [fst].
  destruct Hcur as [Hcur _]. destruct Hcur' as (_ & _ & Hcur' & _).
  destruct Hph as (ph & Hlast & Hshow).
  destruct Hb as (_ & _ & _ & _ & _ & Hts & _).
  destruct (received_split items) as (Hpre & tail & Hitems & Hend).
  remember (received items) as pre eqn:Epre. clear Epre. subst items.
  destruct (forAwait_run t pre [] w0 Hpre)
    as (w1 & _ & Hrest & _ & Hts1 & _ & _ & H).
  destruct (H ph [] (Some true) Hlast Hshow)
    as (ph1 & Hlast1 & Hid1 & Huser1 & _ & Hsteps1 & _).
  destruct (handleSendMessage_resume_ending t tail
              ([] ++ tokenText pre) w1 ph1 Hend Hlast1 Hid1)
    as ((ph' & Hlast' & Hid' & Huser' & Hsteps' & Hth') & Hts').
  unfold handleSendMessage_resume in *. rewrite Hrest.
  split; [|split; [by rewrite Hts', Hts1, Hts|]].
  2:{ rewrite <- Hcur. rewrite <- Hcur'. by rewrite Hrest. }
  exists ph'. split; [done|]. split; [congruence|]. split; [congruence|].
  split; [by rewrite Hsteps', Hsteps1|]. split; [done|].
  unfold ChatMessage.showToggle, ChatMessage.hasReasoning.
  rewrite Huser', Huser1, Hth', Hsteps', Hsteps1. cbn [negb andb orb default].
  symmetry. apply existsb_isReasoning.
Qed.

Lemma handleSendMessage_toggle_witness :
  let reasoning :=
    Yield sampleHost {| event := u16 "reasoning"; data := JStr (u16 "plan") |} in
  let items :=
    [reasoning;
     Yield sampleHost {| event := u16 "token"; data := JStr (u16 "Hello") |};
     Yield sampleHost {| event := u16 "result"; data := JNull |};
     reasoning] in
  hasCurrent readyWorld
  /\ exists ph,
      last (messages (handleSendMessage sampleHost (u16 "hi") items readyWorld))
      = Some ph
      /\ Message.reasoningSteps ph
         = Some [reasoningStep sampleHost
                   (handleSendMessage_begin sampleHost (u16 "hi") readyWorld).1
                   (JStr (u16 "plan"))]
      /\ ChatMessage.showToggle ph = true.
Proof.
  intros reasoning items.
  assert (hasCurrent readyWorld) as Hw by (by vm_compute).
  split; [exact Hw|].
  pose proof (handleSendMessage_toggle sampleHost (u16 "hi") items readyWorld Hw)
    as H.
  cbv zeta in H.
  destruct H as ((ph & Hlast & _ & _ & Hsteps & _ & Htoggle) & _).
  exists ph. split; [exact Hlast|]. split; [exact Hsteps | exact Htoggle].
Defined.

End Activity.

(** * The conversation list and the history effect *)

Section Sidebar.

Lemma listed_ids id w :
  listed id w <-> id ∈ Conversation.id <$> conversations w.
Proof.
  unfold listed. rewrite list_elem_of_fmap. split.
  - intros (conv & Hin & <-). by exists conv.
  - intros (conv & -> & Hin). by exists conv.
Qed.

Lemma currentListed_ids w w' :
  currentListed w ->
  currentConversationId w' = currentConversationId w ->
  (forall id, listed id w -> currentConversationId w = Some id -> listed id w') ->
  currentListed w'.
Proof.
  intros H Hcur Hl id Hid Hne. rewrite Hcur in Hid. apply Hl; [|done].
  by apply H.
Qed.

(** Cancelling takes the stream the page holds out of flight, starts none,
    and leaves the page idle; a second cancel changes nothing. *)
Theorem cancelOngoingStream_stops (w : World) :
  let w' := cancelOngoingStream w in
  abortControllerRef w' = None /\ isLoading w' = false
  /\ aborted w' = aborted w ++ option_list (abortControllerRef w)
  /\ (forall c, abortControllerRef w = Some c -> c ∉ inFlight w')
  /\ (forall c, c ∈ inFlight w' -> c ∈ inFlight w)
  /\ cancelOngoingStream w' = w'.
Proof.
  unfold cancelOngoingStream, inFlight.
  destruct w as [cs cur ms l lh ts [c|] n ab st se to co];
    cbn [abortControllerRef isLoading aborted streams settled option_list
           setAbortControllerRef setIsLoading abort];
    rewrite ?app_nil_r; repeat split; try done.
  - intros c' [= <-]. rewrite list_elem_of_filter. intros [[Hn _] _].
    apply Hn, elem_of_app. right. by apply list_elem_of_singleton.
  - intros c'. rewrite !list_elem_of_filter. intros [[Hn Hs] Hin].
    split; [|done]. split; [|done]. intros Hc. apply Hn, elem_of_app. by left.
Qed.

Lemma handleDeleteConversation_resume_frame id current deleted w :
  let w' := handleDeleteConversation_resume id current deleted w in
  match deleted with
  | Resolved _ =>
    (forall conv, conv ∈ conversations w'
                  <-> conv ∈ conversations w /\ Conversation.id conv <> id)
    /\ ((current = Some id ->
         currentConversationId w' = None /\ messages w' = [])
        /\ (current <> Some id ->
            currentConversationId w' = currentConversationId w
            /\ messages w' = messages w))
  | Rejected _ =>
    conversations w' = conversations w
    /\ currentConversationId w' = currentConversationId w
    /\ messages w' = messages w
  end.
Proof.
  unfold handleDeleteConversation_resume.
  destruct w as [cs cur ms l lh ts ref n ab st se to co].
  destruct deleted as [[]|error]; [|done].
  assert (forall conv, conv ∈ filter (fun conv => Conversation.id conv <> id) cs
                       <-> conv ∈ cs /\ Conversation.id conv <> id) as Hf.
  { intros conv. rewrite list_elem_of_filter. tauto. }
  case_bool_decide as Hcur;
    cbn [conversations messages currentConversationId
           setConversations setCurrentConversationId setMessages toast];
    (split; [exact Hf|]); by split.
Qed.

(** Deleting a conversation cancels the stream the page holds before the
    server is asked: the controller is aborted and out of flight, and the
    page is idle.  When the server has answered, the handler goes on in the
    state of that moment, cancels nothing more and raises one notification.
    When the server agrees, the conversations with the id leave the list and
    the others stay in their order; if the conversation was the current one
    when the delete was requested, the page has no current conversation and
    no messages, otherwise both are kept.  When the server refuses, the
    list, the current conversation and the messages are kept. *)
Theorem handleDeleteConversation_outcome (id : jsstring)
    (current : option jsstring) (deleted : Fetched unit) (w w1 : World) :
  let w0 := handleDeleteConversation_begin w in
  let w' := handleDeleteConversation_resume id current deleted w1 in
  (abortControllerRef w0 = None /\ isLoading w0 = false
   /\ aborted w0 = aborted w ++ option_list (abortControllerRef w)
   /\ (forall c, abortControllerRef w = Some c -> c ∉ inFlight w0)
   /\ (forall c, c ∈ inFlight w0 -> c ∈ inFlight w)
   /\ conversations w0 = conversations w
   /\ currentConversationId w0 = currentConversationId w
   /\ messages w0 = messages w)
  /\ (abortControllerRef w' = abortControllerRef w1
      /\ isLoading w' = isLoading w1
      /\ aborted w' = aborted w1 /\ streams w' = streams w1
      /\ settled w' = settled w1)
  /\ length (toasts w') = S (length (toasts w1))
  /\ match deleted with
     | Resolved _ =>
       (forall conv, conv ∈ conversations w'
                     <-> conv ∈ conversations w1 /\ Conversation.id conv <> id)
       /\ sublist (conversations w') (conversations w1)
       /\ ~ listed id w'
       /\ (current = Some id ->
           currentConversationId w' = None /\ messages w' = [])
       /\ (current <> Some id ->
           currentConversationId w' = currentConversationId w1
           /\ messages w' = messages w1)
     | Rejected _ =>
       conversations w' = conversations w1
       /\ currentConversationId w' = currentConversationId w1
       /\ messages w' = messages w1
     end.
Proof.
  cbv zeta. split.
  { unfold handleDeleteConversation_begin, cancelOngoingStream, inFlight.
    destruct w as [cs cur ms l lh ts [c|] n ab st se to co];
      cbn [abortControllerRef isLoading aborted streams settled option_list
             conversations currentConversationId messages
             setAbortControllerRef setIsLoading abort];
      rewrite ?app_nil_r; repeat split; try done.
    - intros c' [= <-]. rewrite list_elem_of_filter. intros [[Hn _] _].
      apply Hn, elem_of_app. right. by apply list_elem_of_singleton.
    - intros c'. rewrite !list_elem_of_filter. intros [[Hn Hs] Hin].
      split; [|done]. split; [|done]. intros Hc. apply Hn, elem_of_app.
      by left. }
  unfold handleDeleteConversation_resume, listed.
  destruct w1 as [cs cur ms l lh ts ref n ab st se to co].
  destruct deleted as [[]|error].
  - assert (forall conv, conv ∈ filter (fun conv => Conversation.id conv <> id) cs
                         <-> conv ∈ cs /\ Conversation.id conv <> id) as Hf.
    { intros conv. rewrite list_elem_of_filter. tauto. }
    case_bool_decide as Hcur;
      cbn [abortControllerRef isLoading toasts conversations messages
             aborted streams settled currentConversationId
             setConversations setCurrentConversationId setMessages toast];
      rewrite ?length_app; cbn [length];
      (split; [done|]); (split; [lia|]);
      (split; [exact Hf|]); (split; [apply sublist_filter|]);
      (split; [intros (conv & [_ Hne]%Hf & Hid); by apply Hne|]);
      by split.
  - cbn [abortControllerRef isLoading toasts conversations messages
           aborted streams settled currentConversationId toast].
    rewrite ?length_app; cbn [length].
    split; [done|]. split; [lia|]. done.
Qed.

Lemma currentListed_same w w' :
  Conversation.id <$> conversations w' = Conversation.id <$> conversations w ->
  currentConversationId w' = currentConversationId w ->
  currentListed w -> currentListed w'.
Proof.
  intros Hids Hcur Hw id Hid Hne. rewrite Hcur in Hid.
  apply listed_ids. rewrite Hids. apply listed_ids. by apply Hw.
Qed.

Lemma handleSendMessage_begin_listed h text w :
  currentListed w -> currentListed (handleSendMessage_begin h text w).2.
Proof.
  intros Hw. pose proof (handleSendMessage_begin_full h text w) as Hb.
  destruct (handleSendMessage_begin h text w) as [t w0]. cbn [snd].
  destruct Hb as (_ & Hchat & _ & Hconv & Hcur & _).
  intros id Hid _. rewrite Hcur in Hid. injection Hid as <-.
  apply listed_ids. rewrite Hconv, mapConversation_ids, Hchat.
  destruct (currentConversationId w) as [[|c id']|] eqn:E.
  - by left.
  - by apply listed_ids, Hw.
  - by left.
Qed.

Lemma cancelOngoingStream_listed w :
  currentListed w -> currentListed (cancelOngoingStream w).
Proof.
  apply currentListed_same; unfold cancelOngoingStream;
    by destruct (abortControllerRef w).
Qed.

Lemma handleSendMessage_end_listed t r :
  currentListed r.2 -> currentListed (handleSendMessage_end t r).
Proof.
  destruct r as [[completion acc] w]. cbn [snd].
  destruct (handleSendMessage_end_any t completion acc w)
    as (_ & Hconv & Hcur & _).
  apply currentListed_same; [by rewrite Hconv | done].
Qed.

Lemma abortHandled_listed p :
  currentListed (Page.world p) -> currentListed (Page.world (Page.abortHandled p)).
Proof.
  unfold Page.abortHandled. intros Hp.
  assert (currentListed
            (Page.world
               (Page.mk (Page.world p) [] (Page.deleting p) (Page.loading p))))
    as Hq by done.
  revert Hq.
  generalize (Page.mk (Page.world p) [] (Page.deleting p) (Page.loading p)).
  induction (Page.running p) as [|[turn acc] l IH]; intros q Hq; [done|].
  cbn [foldl]. apply IH. case_bool_decide; [|done]. cbn [Page.world].
  by apply (handleSendMessage_end_listed turn (Threw AbortError, acc, Page.world q)).
Qed.

Lemma effects_listed previous p :
  currentListed (Page.world p) ->
  currentListed (Page.world (Page.effects previous p)).
Proof.
  unfold Page.effects. case_bool_decide; [done|].
  by destruct (currentConversationId (Page.world p)) as [[|c id']|].
Qed.

(** The current conversation stays in the list: if it is there before an
    action of the page, or there is none, it is there after, whatever is
    pending, on two conditions.  A conversation that is selected is in the
    list; and when the server has answered a delete, the conversation being
    deleted is not the current one unless it was when the delete was
    requested. *)
Theorem currentListed_preserved (a : Page.Action) (p p' : Page.t) :
  currentListed (Page.world p) ->
  match a with
  | Page.Select id => listed id (Page.world p)
  | Page.Deleted k _ =>
    forall id current,
      Page.deleting p !! k = Some (id, current) ->
      currentConversationId (Page.world p) = Some id -> current = Some id
  | _ => True
  end ->
  Page.perform a p = Some p' ->
  currentListed (Page.world p').
Proof.
  intros Hw Ha. destruct a as [h text|h|id|id|k outcome|k h fetched|k h ev|k|k e];
    cbn [Page.perform].
  - destruct (isLoading _ || isLoadingHistory _); [done|].
    pose proof (handleSendMessage_begin_listed h text (Page.world p) Hw) as Hb.
    destruct (handleSendMessage_begin h text (Page.world p)) as [turn w0].
    intros [= <-]. by apply effects_listed, abortHandled_listed.
  - intros [= <-]. apply effects_listed, abortHandled_listed. cbn [Page.world].
    intros id [= <-] _. eexists. split; [by left | done].
  - intros [= <-]. apply effects_listed, abortHandled_listed. cbn [Page.world].
    intros id' Hid' _. unfold handleSelectConversation in *.
    cbn [currentConversationId setCurrentConversationId] in Hid'.
    injection Hid' as <-. revert Ha. unfold listed, cancelOngoingStream.
    by destruct (abortControllerRef (Page.world p)).
  - intros [= <-]. apply abortHandled_listed. cbn [Page.world].
    by apply cancelOngoingStream_listed.
  - destruct (Page.deleting p !! k) as [[id current]|] eqn:Hk; [|done].
    intros [= <-]. apply effects_listed. cbn [Page.world].
    specialize (Ha id current eq_refl).
    pose proof (handleDeleteConversation_resume_frame id current outcome
                  (Page.world p)) as Hd.
    intros id' Hid Hne. destruct outcome as [[]|error].
    + destruct Hd as (Hin & Hcur).
      destruct (decide (current = Some id)) as [E|E].
      * destruct (proj1 Hcur E) as [Hnone _]. by rewrite Hnone in Hid.
      * destruct (proj2 Hcur E) as [Hsame _]. rewrite Hsame in Hid.
        destruct (Hw id' Hid Hne) as (conv & Hconv & Hcid).
        exists conv. split; [|done]. apply Hin. split; [done|].
        intros Heq. apply E, Ha. congruence.
    + destruct Hd as (Hconv & Hcur & _). rewrite Hcur in Hid.
      unfold listed in *. rewrite Hconv. by apply Hw.
  - destruct (Page.loading p !! k) as [chatId|]; [|done].
    intros [= <-]. cbn [Page.world]. revert Hw.
    apply currentListed_same; unfold loadChatHistory_resume;
      by destruct fetched as [[[msgs|]]|e].
  - destruct (Page.running p !! k) as [[turn acc]|]; [|done].
    pose proof (onEvent_conversation_ids h turn ev acc (Page.world p)) as Hids.
    destruct (onEvent_shape turn h ev acc (Page.world p))
      as (_ & _ & _ & _ & _ & _ & _ & (Hcur & _)).
    destruct (onEvent h turn ev acc (Page.world p)) as [[[] acc'] w'];
      cbn [snd] in *; intros [= <-]; cbn [Page.world].
    + by apply (currentListed_same (Page.world p)).
    + apply (handleSendMessage_end_listed turn (Broke, acc', w')).
      by apply (currentListed_same (Page.world p)).
  - destruct (Page.running p !! k) as [[turn acc]|]; [|done].
    intros [= <-]. cbn [Page.world].
    by apply (handleSendMessage_end_listed turn (Done, acc, Page.world p)).
  - destruct (Page.running p !! k) as [[turn acc]|]; [|done].
    intros [= <-]. cbn [Page.world].
    by apply (handleSendMessage_end_listed turn (Threw e, acc, Page.world p)).
Qed.

Lemma currentListed_preserved_witness :
  exists p,
    Page.perform (Page.Select (Number_toString 1700000000000))
      (Page.mounted sampleHost) = Some p
    /\ currentListed (Page.world p).
Proof.
  eexists. split; [reflexivity|].
  apply (currentListed_preserved
           (Page.Select (Number_toString 1700000000000))
           (Page.mounted sampleHost)).
  - intros id Hid Hne. exists (Conversation.mk id (u16 "새 대화") None 1700000000000).
    split; [|done]. vm_compute in Hid. injection Hid as <-. by left.
  - eexists. split; [by left | by vm_compute].
  - reflexivity.
Defined.

(** Without the second condition the current conversation can leave the
    list: a conversation that is selected while the server is asked to
    delete it stays current when the server agrees, since the handler
    compares the id with the current conversation of the moment the delete
    was requested. *)
Example handleDeleteConversation_stale_current :
  let first := Number_toString 1700000000000 in
  let second := Number_toString 1700000005000 in
  let empty := Resolved (History.mkResponse (Some [])) in
  (fun p => (Conversation.id <$> conversations (Page.world p),
              currentConversationId (Page.world p)))
    <$> Page.run
          [Page.Loaded 0 sampleHost empty;
           Page.NewConversation (hostAt 1700000005000);
           Page.Loaded 0 sampleHost empty;
           Page.Delete first;
           Page.Select first;
           Page.Deleted 0 (Resolved ())]
          (Page.mounted sampleHost)
  = Some ([second], Some first).
Proof. by vm_compute. Qed.

(** A turn whose placeholder is not in the list changes no entry. *)
Lemma handleSendMessage_resume_fresh t rest acc w :
  Forall (fun msg => Message.id msg <> aiMessageId t) (messages w) ->
  messages (handleSendMessage_resume t rest acc w) = messages w.
Proof.
  intros Hfresh. unfold handleSendMessage_resume.
  destruct (forAwait_any t rest acc w) as (f & _ & Hm & _).
  destruct (forAwait t rest acc w) as [[completion acc'] w2]. cbn [snd] in Hm.
  destruct (handleSendMessage_end_any t completion acc' w2)
    as ((g & _ & _ & Hm') & _).
  rewrite Hm', Hm. rewrite (mapMessage_fresh _ f) by done.
  by apply mapMessage_fresh.
Qed.

Lemma loadChatHistory_fresh h chatId' fetched w n :
  chatId' <> [] ->
  Forall (fun msg => Message.id msg <> Number_toString n)
    (messages (loadChatHistory h chatId' fetched w)).
Proof.
  intros Hne. destruct (loadChatHistory_messages h chatId' fetched w) as (-> & _).
  apply Forall_lookup. intros i msg.
  rewrite list_lookup_imap. destruct (returnedWindow fetched !! i); [|done].
  intros [= <-]. by apply loadedMessage_id_fresh.
Qed.

(** A history load takes the message list away from a turn that is still
    running: whatever its stream delivers afterwards, and however the turn
    ends, the list stays the loaded window, since no loaded entry carries
    the id of a placeholder. *)
Theorem loadChatHistory_detaches_turn (h : Host) (chatId' : jsstring)
    (fetched : Fetched History.response) (t : Turn) (n : Z)
    (rest : list StreamItem) (acc : jsstring) (w : World) :
  chatId' <> [] -> aiMessageId t = Number_toString n ->
  let w1 := loadChatHistory h chatId' fetched w in
  messages (handleSendMessage_resume t rest acc w1)
  = imap (loadedMessage h chatId') (returnedWindow fetched).
Proof.
  intros Hne Hai w1. subst w1.
  rewrite handleSendMessage_resume_fresh.
  - apply loadChatHistory_messages.
  - rewrite Hai. by apply loadChatHistory_fresh.
Qed.

Lemma loadChatHistory_detaches_turn_witness :
  let '(t, w0) := handleSendMessage_begin sampleHost (u16 "hi") initialWorld in
  let token := Yield sampleHost {| event := u16 "token"; data := JStr (u16 "lost") |} in
  messages
    (handleSendMessage_resume t [token] []
       (loadChatHistory sampleHost (u16 "7")
          (Resolved (History.mkResponse (Some []))) w0))
  = [].
Proof.
  pose proof (handleSendMessage_begin_full sampleHost (u16 "hi") initialWorld)
    as Hb.
  destruct (handleSendMessage_begin sampleHost (u16 "hi") initialWorld) as [t w0].
  destruct Hb as (Hai & _).
  intros token.
  exact (loadChatHistory_detaches_turn sampleHost (u16 "7")
           (Resolved (History.mkResponse (Some []))) t _ [token] [] w0
           ltac:(by vm_compute) Hai).
Defined.

(** A submit made while the page has no current conversation creates one
    and selects it, which makes the history effect load the history of the
    new conversation while the answer is streaming.  Once that load is over,
    the message list is the window it returned: the user's entry and the
    placeholder of the turn are in the list only as far as the server
    returned them, and what the stream delivers afterwards reaches no
    entry. *)
Theorem handleSendMessage_first_submit_reload (h hl : Host) (text : jsstring)
    (w : World) (pre rest : list StreamItem)
    (fetched : Fetched History.response) :
  currentConversationId w = None -> Forall nonTerminal pre ->
  let '(t, w0) := handleSendMessage_begin h text w in
  let '(_, acc, w1) := forAwait t pre [] w0 in
  let w2 := historyEffect hl (currentConversationId w) fetched w1 in
  let w3 := handleSendMessage_resume t rest acc w2 in
  chatId t = Number_toString (now h)
  /\ messages w2 = imap (loadedMessage hl (chatId t)) (returnedWindow fetched)
  /\ messages w3 = messages w2
  /\ isLoading w3 = false.
Proof.
  intros Hcur Hpre.
  pose proof (handleSendMessage_begin_full h text w) as Hb.
  destruct (handleSendMessage_begin h text w) as [t w0].
  destruct Hb as (Hai & Hchat & _ & _ & Hcur0 & _). rewrite Hcur in Hchat.
  destruct (forAwait_run t pre [] w0 Hpre)
    as (w1 & -> & _ & _ & _ & _ & (Hcur1 & _) & _).
  cbv zeta. rewrite Hcur. unfold historyEffect.
  rewrite Hcur1, Hcur0, bool_decide_eq_false_2 by done.
  pose proof (Number_toString_nonempty (now h)) as Hne. rewrite <- Hchat in Hne.
  destruct (chatId t) as [|c id'] eqn:Echat; [done|].
  split; [done|].
  split; [apply loadChatHistory_messages|].
  split.
  - apply handleSendMessage_resume_fresh. rewrite Hai.
    by apply loadChatHistory_fresh.
  - unfold handleSendMessage_resume.
    destruct (forAwait t rest _ _) as [[completion acc'] w']. 
    apply handleSendMessage_end_any.
Qed.

Lemma handleSendMessage_first_submit_reload_witness :
  let pre :=
    [Yield sampleHost {| event := u16 "token"; data := JStr (u16 "Hel") |}] in
  let rest := [Yield sampleHost {| event := u16 "result"; data := JNull |}] in
  let fetched := Rejected (OtherError (u16 "not found")) in
  let '(t, w0) := handleSendMessage_begin sampleHost (u16 "hi") initialWorld in
  let '(_, acc, w1) := forAwait t pre [] w0 in
  messages
    (handleSendMessage_resume t rest acc
       (historyEffect sampleHost None fetched w1))
  = [].
Proof.
  intros pre rest fetched.
  assert (Forall nonTerminal pre) as Hpre by (repeat constructor; by vm_compute).
  pose proof (handleSendMessage_first_submit_reload sampleHost sampleHost
                (u16 "hi") initialWorld pre rest fetched eq_refl Hpre) as H.
  destruct (handleSendMessage_begin sampleHost (u16 "hi") initialWorld) as [t w0].
  destruct (forAwait t pre [] w0) as [[c acc] w1].
  destruct H as (_ & H2 & H3 & _).
  cbn [currentConversationId initialWorld] in H2, H3. by rewrite H3, H2.
Defined.

(** Selecting the conversation that is current cancels the stream and
    loads nothing: the messages, the conversations and the notifications
    are as they were. *)
Theorem switchConversation_current (h : Host) (id : jsstring)
    (fetched : Fetched History.response) (w : World) :
  currentConversationId w = Some id ->
  switchConversation h id fetched w = cancelOngoingStream w.
Proof.
  intros Hcur. unfold switchConversation, handleSelectConversation.
  assert (setCurrentConversationId (Some id) (cancelOngoingStream w)
          = cancelOngoingStream w) as ->.
  { unfold cancelOngoingStream. destruct w; cbn in *; subst.
    by destruct abortControllerRef0. }
  rewrite bool_decide_eq_true_2; [done|].
  unfold cancelOngoingStream. by destruct (abortControllerRef w).
Qed.

Lemma switchConversation_current_witness :
  let w := mountEffect sampleHost initialWorld in
  messages
    (switchConversation sampleHost (Number_toString 1700000000000)
       (Rejected NonError) w)
  = [] /\ toasts (switchConversation sampleHost (Number_toString 1700000000000)
                   (Rejected NonError) w) = [].
Proof.
  intros w.
  rewrite (switchConversation_current sampleHost (Number_toString 1700000000000)
             (Rejected NonError) w eq_refl).
  by vm_compute.
Defined.

(** Selecting a conversation is the selection followed by the history
    effect. *)
Lemma switchConversation_historyEffect (h : Host) (id : jsstring)
    (fetched : Fetched History.response) (w : World) :
  switchConversation h id fetched w
  = historyEffect h (currentConversationId w) fetched
      (handleSelectConversation id w).
Proof.
  unfold switchConversation, historyEffect.
  case_bool_decide; [done|]. by destruct id.
Qed.

(** A submit writes to the current conversation, or to one it creates at
    the head of the list when there is none: the request carries the id of
    that conversation, the page selects it, every conversation with the id
    shows the first 50 code units of the question as its preview, and the
    others are the ones from before.  A conversation that is created is
    titled by the question, cut to 30 code units and an ellipsis when it is
    longer. *)
Theorem handleSendMessage_begin_conversation (h : Host) (text : jsstring)
    (w : World) :
  let '(t, w0) := handleSendMessage_begin h text w in
  let created :=
    match currentConversationId w with
    | Some (_ :: _) => false
    | _ => true
    end in
  last (streams w0) = Some (controllers w, Request.mk text (chatId t))
  /\ currentConversationId w0 = Some (chatId t) /\ chatId t <> []
  /\ (created = false -> currentConversationId w0 = currentConversationId w)
  /\ length (conversations w0)
     = ((if created then 1 else 0) + length (conversations w))%nat
  /\ (forall conv, conv ∈ conversations w0 -> Conversation.id conv = chatId t ->
        Conversation.lastMessage conv = Some (take 50 text)
        /\ Conversation.timestamp conv = now h)
  /\ (forall conv, conv ∈ conversations w0 -> Conversation.id conv <> chatId t ->
        conv ∈ conversations w)
  /\ (created = true ->
      exists conv,
        head (conversations w0) = Some conv
        /\ Conversation.id conv = chatId t
        /\ chatId t = Number_toString (now h)
        /\ Conversation.title conv
           = (if (30 <? length text)%nat then take 30 text ++ u16 "..." else text)
        /\ (length (Conversation.title conv) <= 33)%nat).
Proof.
  pose proof (handleSendMessage_begin_full h text w) as Hb.
  pose proof (handleSendMessage_begin_spec h text w) as Hs.
  destruct (handleSendMessage_begin h text w) as [t w0].
  destruct Hb as (_ & Hchat & _ & Hconv & Hcur & _ & _ & _ & Hst).
  destruct Hs as (_ & _ & _ & _ & _ & _ & _ & _ & _ & Hc & _).
  cbv zeta.
  split; [by rewrite Hst, last_snoc, Hc|]. split; [done|].
  split.
  { rewrite Hchat. destruct (currentConversationId w) as [[|c id']|]; try done;
      apply Number_toString_nonempty. }
  split.
  { rewrite Hcur, Hchat. by destruct (currentConversationId w) as [[|c id']|]. }
  split.
  { rewrite Hconv, mapConversation_length.
    by destruct (currentConversationId w) as [[|c id']|]. }
  split.
  { intros conv. rewrite Hconv. unfold mapConversation.
    intros (c0 & -> & _)%list_elem_of_fmap.
    destruct (streq (Conversation.id c0) (chatId t)) eqn:E; [done|].
    by apply streq_false in E. }
  split.
  { intros conv. rewrite Hconv. unfold mapConversation.
    intros (c0 & -> & Hin)%list_elem_of_fmap.
    destruct (streq (Conversation.id c0) (chatId t)) eqn:E.
    - apply streq_true in E. by intros [].
    - intros _. destruct (currentConversationId w) as [[|c id']|]; try done;
        apply elem_of_cons in Hin as [->|Hin]; try done;
        apply streq_false in E; by rewrite Hchat in E. }
  intros Hcreated.
  assert (chatId t = Number_toString (now h)) as Hid.
  { rewrite Hchat. by destruct (currentConversationId w) as [[|c id']|]. }
  assert (exists l,
             conversations w0
             = mapConversation (chatId t)
                 (Conversation.with_preview (slice 0 50 text) (now h))
                 (Conversation.mk (Number_toString (now h))
                    (slice 0 30 text
                       ++ (if (30 <? length text)%nat then u16 "..." else []))
                    (Some (slice 0 50 text)) (now h) :: l)) as [l Hl].
  { rewrite Hconv.
    destruct (currentConversationId w) as [[|c id']|]; try done; by eexists. }
  rewrite Hl. unfold mapConversation. cbn [fmap list_fmap head Conversation.id].
  rewrite Hid, streq_refl. eexists. split; [done|].
  split; [done|]. split; [done|].
  cbn [Conversation.with_preview Conversation.title]. unfold slice.
  change (drop 0 text) with text. cbn [Nat.sub].
  destruct (30 <? length text)%nat eqn:E.
  - split; [done|]. rewrite length_app, length_take.
    change (length (u16 "...")) with 3%nat. lia.
  - apply Nat.ltb_ge in E. rewrite app_nil_r, take_ge by done.
    split; [done | lia].
Qed.

End Sidebar.

(** * The streams in flight *)

Section Streams.

Lemma handleSendMessage_begin_control h text w :
  let '(t, w0) := handleSendMessage_begin h text w in
  controller t = controllers w
  /\ isLoading w0 = true
  /\ abortControllerRef w0 = Some (controllers w)
  /\ controllers w0 = S (controllers w)
  /\ aborted w0 = aborted w ++ option_list (abortControllerRef w)
  /\ streams w0 = streams w ++ [(controllers w, Request.mk text (chatId t))]
  /\ settled w0 = settled w.
Proof.
  unfold handleSendMessage_begin, abortPrevious, ensureConversation,
    appendEntries, openStream, newAbortController.
  destruct (abortControllerRef w) as [c|] eqn:Href;
    destruct (currentConversationId w) as [[|c0 id0]|] eqn:Hcur;
    cbn -[u16 Number_toString slice]; rewrite ?Href, ?Hcur;
    cbn -[u16 Number_toString slice];
    rewrite ?app_nil_r; by repeat split.
Qed.

(** [w'] is [w] after a cancel, as far as the streams are concerned. *)
Lemma cancelOngoingStream_control w w' :
  w' = cancelOngoingStream w
  \/ (exists h, w' = handleNewConversation h w)
  \/ (exists id, w' = handleSelectConversation id w)
  \/ w' = handleDeleteConversation_begin w ->
  isLoading w' = false /\ abortControllerRef w' = None
  /\ controllers w' = controllers w
  /\ aborted w' = aborted w ++ option_list (abortControllerRef w)
  /\ streams w' = streams w /\ settled w' = settled w.
Proof.
  unfold handleNewConversation, handleSelectConversation,
    handleDeleteConversation_begin, cancelOngoingStream.
  intros [-> | [[h ->] | [[id ->] | ->]]];
    destruct (abortControllerRef w) as [c|] eqn:Href;
    cbn [isLoading abortControllerRef controllers aborted streams settled
           setConversations setCurrentConversationId setMessages
           setIsLoading setAbortControllerRef abort option_list];
    rewrite ?app_nil_r; by repeat split.
Qed.

Lemma inFlight_elem w c :
  (c ∈ inFlight w)
  <-> ((c ∉ aborted w) /\ (c ∉ settled w)) /\ (c ∈ (fst <$> streams w)).
Proof. unfold inFlight. by rewrite list_elem_of_filter. Qed.

Lemma list_nil_elem {A} (l : list A) : (forall x, x ∉ l) -> l = [].
Proof. destruct l as [|x l]; [done|]. intros H. destruct (H x). by left. Qed.

(** The streams and their fate are the same in [w'] as in [w]. *)
Lemma oneStream_same p w' deleting' loading' :
  isLoading w' = isLoading (Page.world p) ->
  abortControllerRef w' = abortControllerRef (Page.world p) ->
  controllers w' = controllers (Page.world p) ->
  aborted w' = aborted (Page.world p) ->
  streams w' = streams (Page.world p) ->
  settled w' = settled (Page.world p) ->
  oneStream p ->
  oneStream (Page.mk w' (Page.running p) deleting' loading').
Proof.
  intros Hl Hr Hn Ha Hs He. unfold oneStream, fresh, inFlight.
  cbn [Page.world Page.running]. by rewrite Hl, Hr, Hn, Ha, Hs, He.
Qed.

Lemma fresh_grow w w' :
  fresh w ->
  controllers w' = controllers w -> streams w' = streams w ->
  abortControllerRef w' = None ->
  (forall c, c ∈ aborted w' -> c ∈ aborted w \/ Some c = abortControllerRef w) ->
  (forall c, c ∈ settled w' -> c ∈ settled w \/ Some c = abortControllerRef w) ->
  fresh w'.
Proof.
  unfold fresh. rewrite !Forall_app, !Forall_forall.
  intros (Hfa & Hfe & Hfs & Hfr) Hn Hs Hr Ha He. rewrite Hn, Hs, Hr.
  assert (forall c, Some c = abortControllerRef w -> (c < controllers w)%nat)
    as Href.
  { intros c Hc. apply Hfr. rewrite <- Hc. by left. }
  split; [|split; [|split; [done | by intros ? ?%elem_of_nil]]].
  - intros c [Hc | Hc]%Ha; auto.
  - intros c [Hc | Hc]%He; auto.
Qed.

(** The activation that runs is over, or nothing runs and the page
    cancels. *)
Lemma oneStream_idle p w' deleting' loading' :
  oneStream p -> fresh w' ->
  streams w' = streams (Page.world p) ->
  (forall c, c ∈ aborted (Page.world p) -> c ∈ aborted w') ->
  (forall c, c ∈ settled (Page.world p) -> c ∈ settled w') ->
  (forall t acc, Page.running p = [(t, acc)] ->
                 controller t ∈ aborted w' \/ controller t ∈ settled w') ->
  oneStream (Page.mk w' [] deleting' loading').
Proof.
  intros [_ Hrun] Hfresh Hs Ha He Hover. split; [done|].
  cbn [Page.running Page.world]. apply list_nil_elem.
  intros c [[Hna Hne] Hin]%inFlight_elem. rewrite Hs in Hin.
  assert (c ∈ inFlight (Page.world p)) as Hc.
  { apply inFlight_elem. split; [|done]. split; intros H; auto. }
  destruct (Page.running p) as [|[t acc] [|r l]]; [| |done].
  - rewrite Hrun in Hc. by apply elem_of_nil in Hc.
  - destruct Hrun as (Hin' & _). rewrite Hin' in Hc.
    apply list_elem_of_singleton in Hc as ->.
    by destruct (Hover t acc eq_refl).
Qed.

(** The activation that runs reaches its [finally] block. *)
Lemma oneStream_end p t acc completion acc1 w1 deleting' loading' :
  oneStream p -> Page.running p = [(t, acc)] ->
  controllers w1 = controllers (Page.world p) ->
  streams w1 = streams (Page.world p) ->
  settled w1 = settled (Page.world p) ->
  (forall c, c ∈ aborted (Page.world p) -> c ∈ aborted w1) ->
  (forall c, c ∈ aborted w1 ->
             c ∈ aborted (Page.world p)
             \/ Some c = abortControllerRef (Page.world p)) ->
  oneStream
    (Page.mk (handleSendMessage_end t (completion, acc1, w1)) []
       deleting' loading').
Proof.
  intros Hp Hrun Hn Hs He Ha Ha'.
  destruct (handleSendMessage_end_any t completion acc1 w1)
    as (_ & _ & _ & _ & _ & Hr2 & Hn2 & Ha2 & Hs2 & He2).
  assert (abortControllerRef (Page.world p) = Some (controller t)) as Href.
  { destruct Hp as [_ Hp]. rewrite Hrun in Hp. by destruct Hp as (_ & ? & _). }
  apply (oneStream_idle p); [done| | | | |].
  - apply (fresh_grow (Page.world p)); [by destruct Hp|congruence..| |].
    + intros c. rewrite Ha2. apply Ha'.
    + intros c. rewrite He2, He, elem_of_app, list_elem_of_singleton.
      intros [Hc | ->]; [by left | by right].
  - congruence.
  - intros c Hc. rewrite Ha2. by apply Ha.
  - intros c Hc. rewrite He2, He, elem_of_app. by left.
  - intros t' acc' Hrun'. rewrite Hrun in Hrun'. injection Hrun' as <- _.
    right. rewrite He2, elem_of_app, list_elem_of_singleton. by right.
Qed.

Lemma effects_oneStream previous p :
  oneStream p -> oneStream (Page.effects previous p).
Proof.
  intros Hp. unfold Page.effects. case_bool_decide; [done|].
  by destruct (currentConversationId (Page.world p)) as [[|c id']|].
Qed.

(** A handler that cancels, and the activation it aborted. *)
Lemma oneStream_cancel p w' deleting' :
  oneStream p ->
  isLoading w' = false /\ abortControllerRef w' = None
  /\ controllers w' = controllers (Page.world p)
  /\ aborted w'
     = aborted (Page.world p) ++ option_list (abortControllerRef (Page.world p))
  /\ streams w' = streams (Page.world p)
  /\ settled w' = settled (Page.world p) ->
  oneStream
    (Page.abortHandled (Page.mk w' (Page.running p) deleting' (Page.loading p))).
Proof.
  intros Hp (Hl & Hr & Hn & Ha & Hs & He).
  assert (forall c, c ∈ aborted (Page.world p) -> c ∈ aborted w') as Hsub.
  { intros c Hc. rewrite Ha, elem_of_app. by left. }
  assert (forall c, c ∈ aborted w' ->
                    c ∈ aborted (Page.world p)
                    \/ Some c = abortControllerRef (Page.world p)) as Hsup.
  { intros c. rewrite Ha, elem_of_app.
    intros [Hc | Hc]; [by left | right].
    destruct (abortControllerRef (Page.world p)); [|by apply elem_of_nil in Hc].
    by apply list_elem_of_singleton in Hc as ->. }
  unfold Page.abortHandled. cbn [Page.running Page.world Page.deleting Page.loading].
  destruct (Page.running p) as [|[t acc] [|r l]] eqn:Hrun.
  - cbn [foldl]. apply (oneStream_idle p); try done.
    + apply (fresh_grow (Page.world p)); try done; [by destruct Hp|].
      intros c. rewrite He. by left.
    + intros c. by rewrite He.
    + intros t acc Hrun'. by rewrite Hrun in Hrun'.
  - cbn [foldl Page.world Page.running Page.deleting Page.loading].
    assert (abortControllerRef (Page.world p) = Some (controller t)) as Href.
    { destruct Hp as [_ Hp]. rewrite Hrun in Hp. by destruct Hp as (_ & ? & _). }
    rewrite bool_decide_eq_true_2.
    2:{ rewrite Ha, Href, elem_of_app. right. by left. }
    unfold handleSendMessage_resume. cbn [forAwait].
    by apply (oneStream_end p t acc).
  - destruct Hp as [_ Hp]. by rewrite Hrun in Hp.
Qed.

Lemma handleDeleteConversation_resume_control id current deleted w :
  let w' := handleDeleteConversation_resume id current deleted w in
  isLoading w' = isLoading w /\ abortControllerRef w' = abortControllerRef w
  /\ controllers w' = controllers w /\ aborted w' = aborted w
  /\ streams w' = streams w /\ settled w' = settled w.
Proof.
  unfold handleDeleteConversation_resume.
  destruct deleted as [[]|error]; [case_bool_decide|]; by repeat split.
Qed.

Lemma loadChatHistory_resume_control h chatId fetched w :
  let w' := loadChatHistory_resume h chatId fetched w in
  isLoading w' = isLoading w /\ abortControllerRef w' = abortControllerRef w
  /\ controllers w' = controllers w /\ aborted w' = aborted w
  /\ streams w' = streams w /\ settled w' = settled w.
Proof.
  unfold loadChatHistory_resume.
  destruct fetched as [[[msgs|]]|e]; by repeat split.
Qed.

(** A submit on a page where nothing runs. *)
Lemma oneStream_submit p h text :
  oneStream p -> Page.running p = [] ->
  let '(t, w0) := handleSendMessage_begin h text (Page.world p) in
  Page.abortHandled
    (Page.mk w0 (Page.running p ++ [(t, [])]) (Page.deleting p) (Page.loading p))
  = Page.mk w0 [(t, [])] (Page.deleting p) (Page.loading p)
  /\ oneStream (Page.mk w0 [(t, [])] (Page.deleting p) (Page.loading p)).
Proof.
  intros [Hfresh Hin] Hrun. rewrite Hrun in *.
  pose proof (handleSendMessage_begin_control h text (Page.world p)) as Hb.
  destruct (handleSendMessage_begin h text (Page.world p)) as [t w0].
  destruct Hb as (Hc & Hl & Hr & Hn & Ha & Hs & He).
  unfold fresh in Hfresh. rewrite !Forall_app, !Forall_forall in Hfresh.
  destruct Hfresh as (Hfa & Hfe & Hfs & Hfr).
  assert (controller t ∉ aborted w0) as Hna.
  { rewrite Ha, Hc, elem_of_app. intros [H | H].
    - apply Hfa in H. lia.
    - apply Hfr in H. lia. }
  assert (controller t ∉ settled w0) as Hne.
  { rewrite He, Hc. intros H. apply Hfe in H. lia. }
  split.
  - unfold Page.abortHandled.
    cbn [app foldl Page.running Page.world Page.deleting Page.loading].
    by rewrite bool_decide_eq_false_2.
  - split.
    + unfold fresh. cbn [Page.world]. rewrite Hn, Ha, He, Hs, Hr, fmap_app.
      rewrite !Forall_app, !Forall_forall. cbn [option_list fmap list_fmap fst].
      repeat split; intros c Hc'.
      * apply Nat.lt_lt_succ_r, Hfa, Hc'.
      * apply Nat.lt_lt_succ_r, Hfr, Hc'.
      * apply Nat.lt_lt_succ_r, Hfe, Hc'.
      * apply Nat.lt_lt_succ_r, Hfs, Hc'.
      * apply list_elem_of_singleton in Hc' as ->. lia.
      * apply list_elem_of_singleton in Hc' as ->. lia.
    + cbn [Page.running Page.world]. split; [|by rewrite Hr, Hc].
      unfold inFlight. rewrite Hs, fmap_app, filter_app.
      cbn [fmap list_fmap fst]. rewrite <- Hc.
      rewrite (filter_cons_True _ (controller t)) by done.
      rewrite filter_nil.
      assert (filter (fun c => (c ∉ aborted w0) /\ (c ∉ settled w0))
                (fst <$> streams (Page.world p)) = []) as ->; [|done].
      apply list_nil_elem. intros c [[Hca Hce] Hcs]%list_elem_of_filter.
      assert (c ∈ inFlight (Page.world p)) as H.
      { apply inFlight_elem. split; [|done]. split.
        - intros H. apply Hca. rewrite Ha, elem_of_app. by left.
        - by rewrite <- He. }
      rewrite Hin in H. by apply elem_of_nil in H.
Qed.

(** Every action keeps the invariant. *)
Lemma perform_oneStream a p p' :
  oneStream p -> Page.perform a p = Some p' -> oneStream p'.
Proof.
  intros Hp.
  destruct a as [h text|h|id|id|k outcome|k h fetched|k h ev|k|k e];
    cbn [Page.perform].
  - destruct (isLoading (Page.world p)) eqn:Hl; [done|].
    destruct (isLoadingHistory (Page.world p)); [done|]. cbn [orb].
    assert (Page.running p = []) as Hrun.
    { destruct Hp as [_ Hp].
      destruct (Page.running p) as [|[t acc] [|r l]]; [done| |done].
      destruct Hp as (_ & _ & Hp). congruence. }
    pose proof (oneStream_submit p h text Hp Hrun) as Hs.
    destruct (handleSendMessage_begin h text (Page.world p)) as [t w0].
    destruct Hs as [-> Hs]. intros [= <-]. by apply effects_oneStream.
  - intros [= <-]. apply effects_oneStream, oneStream_cancel; [done|].
    apply cancelOngoingStream_control. right. left. by exists h.
  - intros [= <-]. apply effects_oneStream, oneStream_cancel; [done|].
    apply cancelOngoingStream_control. right. right. left. by exists id.
  - intros [= <-]. apply oneStream_cancel; [done|].
    apply cancelOngoingStream_control. by repeat right.
  - destruct (Page.deleting p !! k) as [[id current]|]; [|done].
    intros [= <-]. apply effects_oneStream.
    destruct (handleDeleteConversation_resume_control id current outcome
                (Page.world p)) as (? & ? & ? & ? & ? & ?).
    by apply oneStream_same.
  - destruct (Page.loading p !! k) as [chatId|]; [|done].
    intros [= <-].
    destruct (loadChatHistory_resume_control h chatId fetched (Page.world p))
      as (? & ? & ? & ? & ? & ?).
    by apply oneStream_same.
  - destruct (Page.running p !! k) as [[turn acc]|] eqn:Hk; [|done].
    assert (Page.running p = [(turn, acc)] /\ k = 0%nat) as [Hrun ->].
    { destruct Hp as [_ Hp].
      destruct (Page.running p) as [|[t a] [|r l]]; [done| |done].
      destruct k; [by injection Hk as -> ->|done]. }
    destruct (onEvent_shape turn h ev acc (Page.world p))
      as (_ & _ & _ & _ & _ & _ & _ & (_ & Hl & _ & Hr & Hn & Ha & Hs & He)).
    destruct (onEvent h turn ev acc (Page.world p)) as [[[] acc'] w'];
      cbn [snd] in *; intros [= <-].
    + pose proof (oneStream_same p w' (Page.deleting p) (Page.loading p)
                    Hl Hr Hn Ha Hs He Hp) as H.
      by rewrite Hrun in *.
    + rewrite Hrun. change (delete 0%nat [(turn, acc)]) with ([] : list (Turn * jsstring)).
      apply (oneStream_end p turn acc Broke acc' w'); try done;
        intros c; rewrite Ha; auto.
  - destruct (Page.running p !! k) as [[turn acc]|] eqn:Hk; [|done].
    assert (Page.running p = [(turn, acc)] /\ k = 0%nat) as [Hrun ->].
    { destruct Hp as [_ Hp].
      destruct (Page.running p) as [|[t a] [|r l]]; [done| |done].
      destruct k; [by injection Hk as -> ->|done]. }
    intros [= <-]. rewrite Hrun.
    change (delete 0%nat [(turn, acc)]) with ([] : list (Turn * jsstring)). apply (oneStream_end p turn acc Done acc (Page.world p)); auto.
  - destruct (Page.running p !! k) as [[turn acc]|] eqn:Hk; [|done].
    assert (Page.running p = [(turn, acc)] /\ k = 0%nat) as [Hrun ->].
    { destruct Hp as [_ Hp].
      destruct (Page.running p) as [|[t a] [|r l]]; [done| |done].
      destruct k; [by injection Hk as -> ->|done]. }
    intros [= <-]. rewrite Hrun.
    change (delete 0%nat [(turn, acc)]) with ([] : list (Turn * jsstring)). apply (oneStream_end p turn acc (Threw e) acc (Page.world p)); auto.
Qed.

Lemma mounted_oneStream h : oneStream (Page.mounted h).
Proof.
  unfold Page.mounted. apply effects_oneStream.
  split; [|done]. unfold fresh, mountEffect. by cbn.
Qed.

Lemma run_oneStream actions : forall p p',
  oneStream p -> Page.run actions p = Some p' -> oneStream p'.
Proof.
  induction actions as [|a actions IH]; intros p p' Hp; cbn [Page.run].
  - by intros [= <-].
  - destruct (Page.perform a p) as [p1|] eqn:Ha; [|done].
    apply IH. by eapply perform_oneStream.
Qed.

End Streams.



(** The invariant rests on the guard of the input.  The [finally] block of
    an activation clears [abortControllerRef] whichever controller it
    holds; if a submit could reach the page while an activation runs, that
    activation would end after the submit stored its own controller and
    clear it, and the submit after that would find nothing to abort.  The
    page refuses the submit that starts this. *)
Example handleSendMessage_stale_finally :
  let '(tA, w1) := handleSendMessage_begin (hostAt 1) (u16 "a") initialWorld in
  let '(tB, w2) := handleSendMessage_begin (hostAt 5) (u16 "b") w1 in
  let w3 := handleSendMessage_resume tA [Throw AbortError] [] w2 in
  let '(tC, w4) := handleSendMessage_begin (hostAt 9) (u16 "c") w3 in
  (inFlight w1 = [controller tA] /\ isLoading w1 = true)
  /\ (aborted w2 = [controller tA] /\ inFlight w2 = [controller tB])
  /\ (abortControllerRef w3 = None /\ isLoading w3 = false
      /\ inFlight w3 = [controller tB])
  /\ (aborted w4 = [controller tA]
      /\ inFlight w4 = [controller tB; controller tC])
  /\ Page.perform (Page.Submit (hostAt 5) (u16 "b"))
       (Page.mk w1 [(tA, [])] [] [])
     = None.
Proof. by vm_compute. Qed.

(** * A turn, as the page performs it *)

Section Performed.

Lemma onEvent_control h t ev acc w :
  (onEvent h t ev acc w).1.1
  = if endsStream (Yield h ev) then Break else Continue.
Proof.
  cbn [endsStream]. unfold onEvent.
  destruct (streq (event ev) (u16 "token")) eqn:Etoken.
  { apply streq_true in Etoken. rewrite Etoken.
    change (streq (u16 "token") (u16 "error")) with false.
    change (streq (u16 "token") (u16 "result")) with false.
    by destruct (foldl _ _ _). }
  destruct (streq (event ev) (u16 "reasoning")) eqn:Ereasoning.
  { apply streq_true in Ereasoning. by rewrite Ereasoning. }
  destruct (streq (event ev) (u16 "tool_state")) eqn:Etool.
  { apply streq_true in Etool. rewrite Etool.
    by destruct (truthy _ && _). }
  destruct (streq (event ev) (u16 "metadata")) eqn:Emeta.
  { apply streq_true in Emeta. by rewrite Emeta. }
  destruct (streq (event ev) (u16 "error")); [done|].
  by destruct (streq (event ev) (u16 "result")).
Qed.

Lemma run_turnActions t items deleting loading : forall acc w,
  Page.run (turnActions items) (Page.mk w [(t, acc)] deleting loading)
  = Some (Page.mk (handleSendMessage_resume t items acc w) [] deleting loading).
Proof.
  unfold handleSendMessage_resume.
  induction items as [|[h ev|e] items IH]; intros acc w; [done| |done].
  cbn [turnActions Page.run Page.perform Page.running Page.world
         Page.deleting Page.loading lookup list_lookup forAwait].
  pose proof (onEvent_control h t ev acc w) as Hc.
  destruct (onEvent h t ev acc w) as [[control acc'] w']. cbn [fst] in Hc.
  subst control. destruct (endsStream (Yield h ev)); [done|].
  apply IH.
Qed.

(** On a page the handlers can reach, with a current conversation, nothing
    running and the input enabled, a submit and the items of its stream,
    with nothing else in between, are performed by the page as
    [handleSendMessage] computes: the history effect does not run, and no
    activation is there to handle an abort. *)
Theorem run_handleSendMessage (p : Page.t) (h : Host) (text : jsstring)
    (items : list StreamItem) :
  oneStream p -> hasCurrent (Page.world p) ->
  isLoading (Page.world p) = false ->
  isLoadingHistory (Page.world p) = false ->
  Page.run (Page.Submit h text :: turnActions items) p
  = Some (Page.mk (handleSendMessage h text items (Page.world p)) []
            (Page.deleting p) (Page.loading p)).
Proof.
  intros Hp Hcur Hl Hlh.
  assert (Page.running p = []) as Hidle.
  { destruct Hp as [_ Hp'].
    destruct (Page.running p) as [|[t acc] [|r l]]; [done| |done].
    destruct Hp' as (_ & _ & Hp'). congruence. }
  cbn [Page.run Page.perform]. rewrite Hl, Hlh. cbn [orb].
  unfold handleSendMessage.
  pose proof (oneStream_submit p h text Hp Hidle) as Hs.
  pose proof (handleSendMessage_begin_current h text (Page.world p) Hcur) as Hc.
  destruct (handleSendMessage_begin h text (Page.world p)) as [t w0].
  destruct Hs as [-> _]. destruct Hc as [Hc _].
  unfold Page.effects. cbn [Page.world].
  rewrite bool_decide_eq_true_2 by done.
  apply run_turnActions.
Qed.

Lemma run_handleSendMessage_witness :
  let items :=
    [Yield sampleHost {| event := u16 "token"; data := JStr (u16 "Hello") |};
     Yield sampleHost {| event := u16 "result"; data := JNull |}] in
  exists p,
    Page.run [Page.Loaded 0 sampleHost (Resolved (History.mkResponse (Some [])))]
      (Page.mounted sampleHost) = Some p
    /\ Page.world p = readyWorld
    /\ (Page.world <$>
          Page.run (Page.Submit sampleHost (u16 "hi") :: turnActions items) p)
       = Some (handleSendMessage sampleHost (u16 "hi") items readyWorld).
Proof.
  intros items.
  destruct (Page.run
              [Page.Loaded 0 sampleHost (Resolved (History.mkResponse (Some [])))]
              (Page.mounted sampleHost)) as [p|] eqn:E; [|by vm_compute in E].
  assert (Page.world p = readyWorld) as Hw.
  { cbn in E. injection E as <-. by vm_compute. }
  exists p. split; [done|]. split; [done|].
  rewrite run_handleSendMessage.
  - cbn [fmap option_fmap option_map Page.world]. by rewrite Hw.
  - eapply run_oneStream; [apply (mounted_oneStream sampleHost) | exact E].
  - rewrite Hw. by vm_compute.
  - by rewrite Hw.
  - by rewrite Hw.
Defined.

End Performed.
